(** * tsuru-client, [tsuru/client/volume.go]: the volume command handlers

    A shallow embedding of the handlers of [volume.go] and the properties
    of their query-and-filter pipeline and of their renderers.

    Go strings are byte sequences; they are modelled by [string] (a list of
    8-bit characters), compared bytewise as Go's [==] and [<] do. *)

From Stdlib Require Import Sorting.Sorted Sorting.Permutation.
From stdpp Require Import base list strings sorting gmap fin_maps.

(** ** Go's [strings] package, as far as [volume.go] uses it *)

(** [strings.Contains(s, substr)]: whether [substr] occurs in [s] at some
    offset. *)
Fixpoint strings_Contains (s substr : string) : bool :=
  String.prefix substr s ||
  match s with
  | EmptyString => false
  | String _ s' => strings_Contains s' substr
  end.

(** [strings.Join(elems, sep)]. *)
Fixpoint strings_Join (elems : list string) (sep : string) : string :=
  match elems with
  | [] => ""
  | [e] => e
  | e :: rest => e +:+ sep +:+ strings_Join rest sep
  end.

(** What "is a substring of" means, independently of the search. *)
Definition is_substring (sub s : string) : Prop :=
  ∃ pre post : string, s = pre +:+ sub +:+ post.

(** ** The types of [github.com/tsuru/tsuru/types/volume]

    The package is imported, not defined, by [volume.go]; the records
    below carry the fields that [volume.go] reads or writes.  A Go map that
    is only ranged over is represented by the sequence of its entries in
    the order in which the runtime yields them: that order is unspecified
    in Go, so every statement below is made for an arbitrary sequence. *)

Section Types.

(** The dynamic type of the values of [VolumePlan.Opts]
    ([map[string]interface{}]). *)
Variable OptValue : Type.

Record VolumePlan := mkVolumePlan {
  Plan_Name : string;
  Plan_Opts : list (string * OptValue)
}.

Record VolumeBindID := mkVolumeBindID {
  BindID_App : string;
  BindID_MountPoint : string
}.

Record VolumeBind := mkVolumeBind {
  Bind_ID : VolumeBindID;
  Bind_ReadOnly : bool
}.

Record Volume := mkVolume {
  Volume_Name : string;
  Volume_Pool : string;
  Volume_Plan : VolumePlan;
  Volume_TeamOwner : string;
  Volume_Binds : list VolumeBind;
  Volume_Opts : list (string * string)
}.

(** ** [volumeFilter] and [VolumeList] *)

Record volumeFilter := mkVolumeFilter {
  filter_name : string;
  filter_pool : string;
  filter_plan : string;
  filter_teamOwner : string
}.

Record VolumeList := mkVolumeList {
  list_filter : volumeFilter;
  list_simplified : bool;
  list_json : bool
}.

(** Go's [a != b] on strings. *)
Definition strne (a b : string) : bool := negb (String.eqb a b).

(** The body of the loop of [clientSideFilter]: the value of [insert]
    when the four [if] statements have run for the volume [v]. *)
Definition clientSideFilter_insert (c : VolumeList) (v : Volume) : bool :=
  let insert := true in
  let insert :=
    if strne (filter_name (list_filter c)) "" &&
       negb (strings_Contains (Volume_Name v) (filter_name (list_filter c)))
    then false else insert in
  let insert :=
    if strne (filter_pool (list_filter c)) "" &&
       strne (Volume_Pool v) (filter_pool (list_filter c))
    then false else insert in
  let insert :=
    if strne (filter_plan (list_filter c)) "" &&
       strne (Plan_Name (Volume_Plan v)) (filter_plan (list_filter c))
    then false else insert in
  let insert :=
    if strne (filter_teamOwner (list_filter c)) "" &&
       strne (Volume_TeamOwner v) (filter_teamOwner (list_filter c))
    then false else insert in
  insert.

(** [func (c *VolumeList) clientSideFilter(volumes) []Volume]: one loop
    over [volumes] that appends to [result]. *)
Definition clientSideFilter (c : VolumeList) (volumes : list Volume)
  : list Volume :=
  fold_left
    (fun result v =>
       if clientSideFilter_insert c v then result ++ [v] else result)
    volumes [].

(** The four component comparisons of the filter criteria. *)
Definition criteria_hold (f : volumeFilter) (v : Volume) : Prop :=
  (filter_name f ≠ "" → is_substring (filter_name f) (Volume_Name v)) ∧
  (filter_pool f ≠ "" → Volume_Pool v = filter_pool f) ∧
  (filter_plan f ≠ "" → Plan_Name (Volume_Plan v) = filter_plan f) ∧
  (filter_teamOwner f ≠ "" → Volume_TeamOwner v = filter_teamOwner f).

End Types.

Arguments mkVolumePlan {OptValue}.
Arguments Plan_Name {OptValue}.
Arguments Plan_Opts {OptValue}.
Arguments mkVolume {OptValue}.
Arguments Volume_Name {OptValue}.
Arguments Volume_Pool {OptValue}.
Arguments Volume_Plan {OptValue}.
Arguments Volume_TeamOwner {OptValue}.
Arguments Volume_Binds {OptValue}.
Arguments Volume_Opts {OptValue}.
Arguments clientSideFilter_insert {OptValue}.
Arguments clientSideFilter {OptValue}.
Arguments criteria_hold {OptValue}.

(** ** Substring search *)

Lemma append_cons (a : Ascii.ascii) (p post : string) :
  String a p +:+ post = String a (p +:+ post).
Proof. reflexivity. Qed.

Lemma prefix_true_iff (p s : string) :
  String.prefix p s = true ↔ ∃ post, s = p +:+ post.
Proof.
  revert s; induction p as [|a p IH]; intros s.
  - destruct s; simpl; split; eauto.
  - destruct s as [|b s]; simpl.
    + split; [discriminate | intros [post H]; discriminate].
    + destruct (Ascii.ascii_dec a b) as [Heq|Hne].
      * subst b. rewrite IH. split; intros [post H]; exists post.
        -- by rewrite H.
        -- rewrite append_cons in H. by injection H.
      * split; [discriminate |].
        intros [post H]; rewrite append_cons in H; congruence.
Qed.

Lemma strings_Contains_spec (s sub : string) :
  strings_Contains s sub = true ↔ is_substring sub s.
Proof.
  unfold is_substring. induction s as [|a s IH]; cbn [strings_Contains].
  - rewrite orb_false_r, prefix_true_iff. split.
    + intros [post H]. exists "", post. exact H.
    + intros [pre [post H]]. destruct pre as [|b pre].
      * eauto.
      * rewrite append_cons in H. discriminate.
  - rewrite orb_true_iff, IH, prefix_true_iff. split.
    + intros [[post H] | [pre [post H]]].
      * exists "", post. exact H.
      * exists (String a pre), post. rewrite append_cons. congruence.
    + intros [pre [post H]]. destruct pre as [|b pre].
      * left. eauto.
      * right. exists pre, post. rewrite append_cons in H. congruence.
Qed.

Lemma strne_true_iff (a b : string) : strne a b = true ↔ a ≠ b.
Proof.
  unfold strne. rewrite negb_true_iff. apply String.eqb_neq.
Qed.

Lemma strne_false_iff (a b : string) : strne a b = false ↔ a = b.
Proof.
  unfold strne. rewrite negb_false_iff. apply String.eqb_eq.
Qed.

(** ** The client-side filter *)

Section Filter.

Context {OptValue : Type}.
Implicit Types (c : VolumeList) (v : Volume OptValue).
Implicit Types (volumes : list (Volume OptValue)).

(** [insert] stays true exactly when none of the four guards fires. *)
Lemma clientSideFilter_insert_true c v :
  clientSideFilter_insert c v = true ↔ criteria_hold (list_filter c) v.
Proof.
  unfold clientSideFilter_insert, criteria_hold.
  destruct c as [[n po pl t] si js]; simpl.
  rewrite <- (strings_Contains_spec (Volume_Name v) n).
  destruct (strne n "") eqn:Hn, (strne po "") eqn:Hpo,
           (strne pl "") eqn:Hpl, (strne t "") eqn:Ht;
    simpl;
    destruct (strings_Contains (Volume_Name v) n) eqn:Hc,
             (strne (Volume_Pool v) po) eqn:Hvpo,
             (strne (Plan_Name (Volume_Plan v)) pl) eqn:Hvpl,
             (strne (Volume_TeamOwner v) t) eqn:Hvt;
    simpl;
    repeat match goal with
    | H : strne _ _ = true |- _ => apply strne_true_iff in H
    | H : strne _ _ = false |- _ => apply strne_false_iff in H
    end;
    intuition congruence.
Qed.

(** The loop, started from any accumulator, appends the kept elements. *)
Lemma clientSideFilter_loop c volumes (acc : list (Volume OptValue)) :
  fold_left
    (fun result v =>
       if clientSideFilter_insert c v then result ++ [v] else result)
    volumes acc
  = acc ++ List.filter (clientSideFilter_insert c) volumes.
Proof.
  revert acc; induction volumes as [|v volumes IH]; intros acc; simpl.
  - by rewrite app_nil_r.
  - rewrite IH. destruct (clientSideFilter_insert c v); [|done].
    by rewrite <- app_assoc.
Qed.

Lemma clientSideFilter_filter c volumes :
  clientSideFilter c volumes = List.filter (clientSideFilter_insert c) volumes.
Proof. unfold clientSideFilter. by rewrite clientSideFilter_loop. Qed.

Lemma clientSideFilter_app c (l1 l2 : list (Volume OptValue)) :
  clientSideFilter c (l1 ++ l2) = clientSideFilter c l1 ++ clientSideFilter c l2.
Proof. rewrite !clientSideFilter_filter. apply List.filter_app. Qed.

Lemma clientSideFilter_single c v :
  clientSideFilter c [v] = if clientSideFilter_insert c v then [v] else [].
Proof. unfold clientSideFilter; simpl. by destruct (clientSideFilter_insert c v). Qed.

Lemma clientSideFilter_sublist c volumes :
  sublist (clientSideFilter c volumes) volumes.
Proof.
  rewrite clientSideFilter_filter.
  induction volumes as [|v volumes IH]; simpl; [constructor|].
  destruct (clientSideFilter_insert c v); by constructor.
Qed.

End Filter.

(** ** Bytewise order on strings (Go's [<] and [<=] on [string]) *)

Definition str_le (a b : string) : Prop := String.leb a b = true.

Global Instance str_le_dec (a b : string) : Decision (str_le a b).
Proof. unfold str_le. apply _. Defined.

Lemma ascii_compare_refl (a : Ascii.ascii) : Ascii.compare a a = Eq.
Proof. unfold Ascii.compare. apply N.compare_refl. Qed.

Lemma string_compare_refl (s : string) : String.compare s s = Eq.
Proof.
  induction s as [|a s IH]; simpl; [done|].
  by rewrite ascii_compare_refl.
Qed.

Lemma string_compare_Lt_trans (a b c : string) :
  String.compare a b = Lt → String.compare b c = Lt → String.compare a c = Lt.
Proof.
  revert b c; induction a as [|x a IH]; intros [|y b] [|z c]; simpl; try done.
  unfold Ascii.compare.
  destruct (N.compare_spec (Ascii.N_of_ascii x) (Ascii.N_of_ascii y));
    try done;
    destruct (N.compare_spec (Ascii.N_of_ascii y) (Ascii.N_of_ascii z));
    try done;
    destruct (N.compare_spec (Ascii.N_of_ascii x) (Ascii.N_of_ascii z));
    try done; try lia.
  apply IH.
Qed.

Lemma str_le_iff (a b : string) :
  str_le a b ↔ String.compare a b = Lt ∨ a = b.
Proof.
  unfold str_le, String.leb.
  destruct (String.compare a b) eqn:Hc.
  - apply String.compare_eq_iff in Hc. naive_solver.
  - naive_solver.
  - split; [done|]. intros [?| ->]; [done|].
    by rewrite string_compare_refl in Hc.
Qed.

Global Instance str_le_refl : Reflexive str_le.
Proof. intros a. apply str_le_iff. by right. Qed.

Global Instance str_le_trans : Transitive str_le.
Proof.
  intros a b c [Hab| ->]%str_le_iff [Hbc| ->]%str_le_iff;
    apply str_le_iff; eauto using string_compare_Lt_trans.
Qed.

Global Instance str_le_total : Total str_le.
Proof. intros a b. apply String.leb_total. Qed.

Global Instance str_le_antisym : AntiSymm (=) str_le.
Proof. intros a b. apply String.leb_antisym. Qed.

(** [sort.Strings]: sorts into increasing bytewise order. *)
Definition sort_Strings (l : list string) : list string := merge_sort str_le l.

(** The line feed that Go writes for ["\n"]. *)
Definition nl : string := String (Ascii.ascii_of_nat 10) EmptyString.

(** ** [github.com/tsuru/tablecli] *)

Definition Row : Type := list string.

Record Table := mkTable {
  Headers : Row;
  LineSeparator : bool;
  rows : list Row
}.

(** [tablecli.NewTable()]. *)
Definition NewTable : Table := mkTable [] false [].

Definition set_Headers (h : Row) (t : Table) : Table :=
  mkTable h (LineSeparator t) (rows t).

Definition set_LineSeparator (b : bool) (t : Table) : Table :=
  mkTable (Headers t) b (rows t).

(** [tbl.AddRow(row)]. *)
Definition AddRow (r : Row) (t : Table) : Table :=
  mkTable (Headers t) (LineSeparator t) (rows t ++ [r]).

(** The cell of row [r] in column [c]. *)
Definition col (c : nat) (r : Row) : string := nth c r EmptyString.

(** Letter case in ASCII text: [A] to [Z] go to [a] to [z], every other
    byte stays as it is (what [strings.ToLower] does to ASCII text). *)
Definition lower_byte (a : Ascii.ascii) : Ascii.ascii :=
  let n := Ascii.N_of_ascii a in
  if (65 <=? n)%N && (n <=? 90)%N then Ascii.ascii_of_N (n + 32) else a.

Fixpoint ToLower_ascii (s : string) : string :=
  match s with
  | EmptyString => EmptyString
  | String a s' => String (lower_byte a) (ToLower_ascii s')
  end.

(** Text made of ASCII bytes only. *)
Fixpoint ascii_only (s : string) : bool :=
  match s with
  | EmptyString => true
  | String a s' => (Ascii.N_of_ascii a <? 128)%N && ascii_only s'
  end.

(** Rows compared column by column, over the listed columns in turn, each
    cell being compared bytewise in the form [key] gives it. *)
Fixpoint row_compare (key : string → string) (columns : list nat)
  (r1 r2 : Row) : comparison :=
  match columns with
  | [] => Eq
  | c :: columns' =>
      match String.compare (key (col c r1)) (key (col c r2)) with
      | Eq => row_compare key columns' r1 r2
      | ne => ne
      end
  end.

Definition row_le (key : string → string) (columns : list nat) (r1 r2 : Row)
  : Prop :=
  row_compare key columns r1 r2 ≠ Gt.

(** In each of the listed columns, no two cells of the rows differ in
    letter case only: two cells with one [key] are one cell. *)
Definition one_letter_case (key : string → string) (columns : list nat)
  (rs : list Row) : Prop :=
  ∀ c r1 r2, c ∈ columns → r1 ∈ rs → r2 ∈ rs →
             key (col c r1) = key (col c r2) → col c r1 = col c r2.

(** The sorting primitives of the table library.  The library is an
    external dependency of [volume.go]; it is taken as a parameter, with
    the contract the renderers rely on.  It compares cells without regard
    to letter case: in a form [cell_key] of the cell, which for ASCII text
    is the cell in lower case.  [Sort] orders the rows by their first
    column and [SortByColumn] by the listed columns in turn; rows that the
    comparison does not tell apart come in an order of the library's own;
    both rearrange the rows and nothing else.  For [SortByColumn] the
    order is fixed only for rows in which no two cells of a compared column
    differ in letter case only: whether the library goes on to the next
    column for two such cells is left open. *)
Class TableCLI := {
  cell_key : string → string;
  cell_key_ascii : ∀ s, ascii_only s = true → cell_key s = ToLower_ascii s;
  rows_Sort : list Row → list Row;
  rows_SortByColumn : list nat → list Row → list Row;
  rows_Sort_Permutation : ∀ rs, rows_Sort rs ≡ₚ rs;
  rows_Sort_Sorted : ∀ rs, Sorted (row_le cell_key [0]) (rows_Sort rs);
  rows_SortByColumn_Permutation :
    ∀ columns rs, rows_SortByColumn columns rs ≡ₚ rs;
  rows_SortByColumn_Sorted :
    ∀ columns rs,
      one_letter_case cell_key columns rs →
      Sorted (row_le cell_key columns) (rows_SortByColumn columns rs)
}.

(** [tbl.Sort()] and [tbl.SortByColumn(columns...)]. *)
Definition Table_Sort {tables : TableCLI} (t : Table) : Table :=
  mkTable (Headers t) (LineSeparator t) (rows_Sort (rows t)).

Definition Table_SortByColumn {tables : TableCLI} (columns : list nat) (t : Table)
  : Table :=
  mkTable (Headers t) (LineSeparator t) (rows_SortByColumn columns (rows t)).

(** ** HTTP requests, responses and Go errors *)

(** A Go [error] value. *)
Inductive error := mkError (msg : string).

(** [url.Values]: [map[string][]string]. *)
Abbreviation Values := (gmap string (list string)).

(** [v.Set(key, value)]. *)
Definition Values_Set (key value : string) (v : Values) : Values :=
  <[key := [value]]> v.

Record Request := mkRequest {
  Method : string;
  URL : string;
  Body : option string;
  Header : gmap string string
}.

(** [request.Header.Set(key, value)]. *)
Definition Header_Set (key value : string) (r : Request) : Request :=
  mkRequest (Method r) (URL r) (Body r) (<[key := value]> (Header r)).

(** A response: its status code, and what [io.ReadAll(rsp.Body)] gives. *)
Record Response := mkResponse {
  StatusCode : nat;
  RspBody : error + string
}.

Definition http_StatusNoContent : nat := 204.

(** ** Effects

    A handler runs against the outside world and writes to [ctx.Stdout].
    Its run is the trace of what it did, in order, and how it ended. *)

Section Effects.

Context {OptValue : Type}.

(** What [formatter.JSON] is given to print. *)
Inductive payload :=
| PVolumes (volumes : list (Volume OptValue))
| PVolume (volume : Volume OptValue).

Inductive event :=
| EvDo (request : Request)          (* client.Do(request) *)
| EvReadAll                         (* io.ReadAll(rsp.Body) *)
| EvUnmarshal (data : string)       (* json.Unmarshal(data, &x) *)
| EvFprint (s : string)             (* fmt.Fprint[ln|f](ctx.Stdout, ...) *)
| EvFprintTable (t : Table)         (* fmt.Fprint(ctx.Stdout, t.String()) *)
| EvFormatterJSON (p : payload).    (* formatter.JSON(ctx.Stdout, p) *)

(** How a Go function ends: it returns a value with a nil error, returns
    a non-nil error, or panics (an index out of range). *)
Inductive outcome (A : Type) :=
| Done (a : A)
| Failed (e : error)
| Panic.

Definition M (A : Type) : Type := list event * outcome A.

Definition M_ret {A} (a : A) : M A := ([], Done A a).

Definition M_bind {A B} (f : A → M B) (m : M A) : M B :=
  match m with
  | (tr, Done _ a) => let '(tr', r) := f a in (tr ++ tr', r)
  | (tr, Failed _ e) => (tr, Failed B e)
  | (tr, Panic _) => (tr, Panic B)
  end.

Definition emit (ev : event) : M unit := ([ev], Done unit tt).

(** [x, err := f(...); if err != nil { return err }]. *)
Definition try {A} (r : error + A) : M A :=
  match r with
  | inl e => ([], Failed A e)
  | inr a => ([], Done A a)
  end.

Definition panic {A} : M A := ([], Panic A).

End Effects.

Arguments payload : clear implicits.
Arguments event : clear implicits.
Arguments M : clear implicits.
Arguments Done {A}.
Arguments Failed {A}.
Arguments Panic {A}.

Global Instance M_mret {OptValue} : MRet (M OptValue) := @M_ret OptValue.
Global Instance M_mbind {OptValue} : MBind (M OptValue) := @M_bind OptValue.

(** The outside world of the handlers: the functions of other packages
    that [volume.go] calls, as functions of their arguments. *)
Class Env (OptValue : Type) := {
  (* cmd.GetURLVersion(version, path) *)
  cmd_GetURLVersion : string → string → error + string;
  (* the error, if any, of http.NewRequest(method, url, body) *)
  http_NewRequest_err : string → string → option error;
  (* client.Do(request) *)
  client_Do : Request → error + Response;
  (* json.Unmarshal(data, &x), at the three types x has in this file *)
  json_Unmarshal_volumes : string → error + list (Volume OptValue);
  json_Unmarshal_volume : string → error + Volume OptValue;
  json_Unmarshal_plans :
    string → error + list (string * list (VolumePlan OptValue));
  (* form.EncodeToValues(vol) *)
  form_EncodeToValues : Volume OptValue → error + Values;
  (* url.Values.Encode() *)
  url_Values_Encode : Values → string;
  (* the error, if any, that formatter.JSON(ctx.Stdout, p) returns *)
  formatter_JSON_err : payload OptValue → option error;
  (* fmt.Sprintf("%v", v) *)
  fmt_Sprint_v : OptValue → string
}.

(** ** The handlers *)

Section Handlers.

Context {OptValue : Type} {tables : TableCLI} {env : Env OptValue}.

Local Abbreviation M := (M OptValue).

(** [http.NewRequest(method, url, body)]. *)
Definition http_NewRequest (method url : string) (body : option string)
  : error + Request :=
  match http_NewRequest_err method url with
  | Some e => inl e
  | None => inr (mkRequest method url body ∅)
  end.

(** [rsp, err := client.Do(request)]. *)
Definition Do (request : Request) : M Response :=
  emit (EvDo request);; try (client_Do request).

(** [data, err := io.ReadAll(rsp.Body)]. *)
Definition io_ReadAll (rsp : Response) : M string :=
  emit EvReadAll;; try (RspBody rsp).

(** [err = json.Unmarshal(data, &x)]. *)
Definition json_Unmarshal {A} (decode : string → error + A) (data : string)
  : M A :=
  emit (EvUnmarshal data);; try (decode data).

(** [return formatter.JSON(ctx.Stdout, p)]. *)
Definition formatter_JSON (p : payload OptValue) : M unit :=
  emit (EvFormatterJSON p);;
  match formatter_JSON_err p with
  | Some e => ([], Failed e)
  | None => mret tt
  end.

(** [ctx *cmd.Context]: the positional arguments. *)
Record Context := mkContext { Args : list string }.

(** *** [volume create] and [volume update] *)

Record VolumeCreate := mkVolumeCreate {
  create_pool : string;
  create_team : string;
  create_opt : list (string * string)
}.

(** [func (c *VolumeCreate) Run(ctx, client) error]. *)
Definition VolumeCreate_Run (c : VolumeCreate) (ctx : Context) : M unit :=
  match Args ctx with
  | volumeName :: planName :: _ =>
      let vol :=
        mkVolume volumeName (create_pool c) (mkVolumePlan planName [])
                 (create_team c) [] (create_opt c) in
      val ← try (form_EncodeToValues vol);
      let body := url_Values_Encode val in
      u ← try (cmd_GetURLVersion "1.4" "/volumes");
      request ← try (http_NewRequest "POST" u (Some body));
      let request :=
        Header_Set "Content-Type" "application/x-www-form-urlencoded"
                   request in
      _ ← Do request;
      emit (EvFprint ("Volume successfully created." +:+ nl))
  | _ => panic
  end.

Record VolumeUpdate := mkVolumeUpdate {
  update_pool : string;
  update_team : string;
  update_opt : list (string * string)
}.

(** [func (c *VolumeUpdate) Run(ctx, client) error]. *)
Definition VolumeUpdate_Run (c : VolumeUpdate) (ctx : Context) : M unit :=
  match Args ctx with
  | volumeName :: planName :: _ =>
      let vol :=
        mkVolume volumeName (update_pool c) (mkVolumePlan planName [])
                 (update_team c) [] (update_opt c) in
      val ← try (form_EncodeToValues vol);
      let body := url_Values_Encode val in
      u ← try (cmd_GetURLVersion "1.4" ("/volumes/" +:+ volumeName));
      request ← try (http_NewRequest "POST" u (Some body));
      let request :=
        Header_Set "Content-Type" "application/x-www-form-urlencoded"
                   request in
      _ ← Do request;
      emit (EvFprint ("Volume successfully updated." +:+ nl))
  | _ => panic
  end.

(** *** [volume list] *)

(** [func (f *volumeFilter) queryString() (url.Values, error)]. *)
Definition queryString (f : volumeFilter) : error + Values :=
  let result : Values := ∅ in
  let result :=
    if strne (filter_name f) "" then Values_Set "name" (filter_name f) result
    else result in
  let result :=
    if strne (filter_teamOwner f) ""
    then Values_Set "teamOwner" (filter_teamOwner f) result
    else result in
  let result :=
    if strne (filter_pool f) "" then Values_Set "pool" (filter_pool f) result
    else result in
  let result :=
    if strne (filter_plan f) "" then Values_Set "plan" (filter_plan f) result
    else result in
  inr result.

(** [for _, v := range volumes { fmt.Fprintln(ctx.Stdout, v.Name) }]. *)
Fixpoint Fprintln_names (volumes : list (Volume OptValue)) : M unit :=
  match volumes with
  | [] => mret tt
  | v :: volumes' =>
      emit (EvFprint (Volume_Name v +:+ nl));; Fprintln_names volumes'
  end.

(** [func (c *VolumeList) render(ctx, volumes) error]. *)
Definition VolumeList_render (c : VolumeList) (volumes : list (Volume OptValue))
  : M unit :=
  if list_simplified c then
    Fprintln_names volumes
  else if list_json c then
    formatter_JSON (PVolumes volumes)
  else
    let tbl := NewTable in
    let tbl := set_Headers ["Name"; "Plan"; "Pool"; "Team"] tbl in
    let tbl := set_LineSeparator true tbl in
    let tbl :=
      fold_left
        (fun tbl v =>
           AddRow [Volume_Name v; Plan_Name (Volume_Plan v);
                   Volume_Pool v; Volume_TeamOwner v] tbl)
        volumes tbl in
    let tbl := Table_Sort tbl in
    emit (EvFprintTable tbl).

(** [func (c *VolumeList) Run(ctx, client) error].  The deferred
    [rsp.Body.Close()] has no effect on the output and is left out. *)
Definition VolumeList_Run (c : VolumeList) (ctx : Context) : M unit :=
  qs ← try (queryString (list_filter c));
  u ← try (cmd_GetURLVersion "1.4" ("/volumes?" +:+ url_Values_Encode qs));
  request ← try (http_NewRequest "GET" u None);
  rsp ← Do request;
  if Nat.eqb (StatusCode rsp) http_StatusNoContent then
    emit (EvFprint ("No volumes available." +:+ nl))
  else
    data ← io_ReadAll rsp;
    volumes ← json_Unmarshal json_Unmarshal_volumes data;
    let volumes := clientSideFilter c volumes in
    VolumeList_render c volumes.

(** *** [volume info] *)

Record VolumeInfo := mkVolumeInfo { info_json : bool }.

(** The rows of the Binds table, in the order of [volume.Binds]. *)
Definition bindRow (b : VolumeBind) : Row :=
  let mode := "rw" in
  let mode := if Bind_ReadOnly b then "ro" else mode in
  [BindID_App (Bind_ID b); BindID_MountPoint (Bind_ID b); mode].

(** [func (c *VolumeInfo) render(ctx, volume) error]. *)
Definition VolumeInfo_render (c : VolumeInfo) (volume : Volume OptValue)
  : M unit :=
  emit (EvFprint ("Name: " +:+ Volume_Name volume +:+ nl +:+
                  "Plan: " +:+ Plan_Name (Volume_Plan volume) +:+ nl +:+
                  "Pool: " +:+ Volume_Pool volume +:+ nl +:+
                  "Team: " +:+ Volume_TeamOwner volume +:+ nl));;
  let bindTable := NewTable in
  let bindTable := set_Headers ["App"; "MountPoint"; "Mode"] bindTable in
  let bindTable := set_LineSeparator true bindTable in
  let bindTable :=
    fold_left (fun t b => AddRow (bindRow b) t)
              (Volume_Binds volume) bindTable in
  emit (EvFprint (nl +:+ "Binds:" +:+ nl));;
  emit (EvFprintTable bindTable);;
  let planOptsTable := NewTable in
  let planOptsTable := set_Headers ["Key"; "Value"] planOptsTable in
  let planOptsTable := set_LineSeparator true planOptsTable in
  let planOptsTable :=
    fold_left (fun t '(k, v) => AddRow [k; fmt_Sprint_v v] t)
              (Plan_Opts (Volume_Plan volume)) planOptsTable in
  let planOptsTable := Table_Sort planOptsTable in
  emit (EvFprint (nl +:+ "Plan Opts:" +:+ nl));;
  emit (EvFprintTable planOptsTable);;
  let optsTable := NewTable in
  let optsTable := set_Headers ["Key"; "Value"] optsTable in
  let optsTable := set_LineSeparator true optsTable in
  let optsTable :=
    fold_left (fun t '(k, v) => AddRow [k; v] t)
              (Volume_Opts volume) optsTable in
  let optsTable := Table_Sort optsTable in
  emit (EvFprint (nl +:+ "Opts:" +:+ nl));;
  emit (EvFprintTable optsTable).

(** [func (c *VolumeInfo) Run(ctx, client) error]. *)
Definition VolumeInfo_Run (c : VolumeInfo) (ctx : Context) : M unit :=
  match Args ctx with
  | volumeName :: _ =>
      u ← try (cmd_GetURLVersion "1.4" ("/volumes/" +:+ volumeName));
      request ← try (http_NewRequest "GET" u None);
      rsp ← Do request;
      if Nat.eqb (StatusCode rsp) http_StatusNoContent then
        emit (EvFprint ("No volumes available." +:+ nl))
      else
        data ← io_ReadAll rsp;
        volume ← json_Unmarshal json_Unmarshal_volume data;
        if info_json c then
          formatter_JSON (PVolume volume)
        else
          VolumeInfo_render c volume
  | [] => panic
  end.

(** *** [volume plan list] *)

(** The Opts cell of a plan: its options as ["key: value"] strings,
    sorted, joined by line feeds. *)
Definition planOptsCell (p : VolumePlan OptValue) : string :=
  let opts :=
    fold_left (fun opts '(k, v) => opts ++ [k +:+ ": " +:+ fmt_Sprint_v v])
              (Plan_Opts p) [] in
  let opts := sort_Strings opts in
  strings_Join opts nl.

(** [func (c *VolumePlansList) render(ctx, plans) error]. *)
Definition VolumePlansList_render
  (plans : list (string * list (VolumePlan OptValue))) : M unit :=
  let tbl := NewTable in
  let tbl := set_Headers ["Plan"; "Provisioner"; "Opts"] tbl in
  let tbl := set_LineSeparator true tbl in
  let tbl :=
    fold_left
      (fun tbl '(provisioner, provPlans) =>
         fold_left
           (fun tbl p =>
              AddRow [Plan_Name p; provisioner; planOptsCell p] tbl)
           provPlans tbl)
      plans tbl in
  let tbl := Table_SortByColumn [0; 1] tbl in
  emit (EvFprintTable tbl).

(** [func (c *VolumePlansList) Run(ctx, client) error]; [plans] is the
    nil map unless the body is decoded. *)
Definition VolumePlansList_Run (ctx : Context) : M unit :=
  u ← try (cmd_GetURLVersion "1.4" "/volumeplans");
  request ← try (http_NewRequest "GET" u None);
  rsp ← Do request;
  plans ←
    (if negb (Nat.eqb (StatusCode rsp) http_StatusNoContent) then
       data ← io_ReadAll rsp;
       json_Unmarshal json_Unmarshal_plans data
     else mret []);
  VolumePlansList_render plans.

End Handlers.

(** ** A table library that meets the contract

    Merge sort under [row_le], the cells taken in lower case, is one
    implementation of [TableCLI]; it makes the tables of the examples below
    computable. *)

Global Instance row_le_dec (key : string → string) (columns : list nat)
  (r1 r2 : Row) : Decision (row_le key columns r1 r2).
Proof.
  unfold row_le. destruct (row_compare key columns r1 r2).
  - left; discriminate.
  - left; discriminate.
  - right; intros H; by apply H.
Defined.

Lemma row_compare_antisym (key : string → string) (columns : list nat)
  (r1 r2 : Row) :
  row_compare key columns r2 r1 = CompOpp (row_compare key columns r1 r2).
Proof.
  induction columns as [|c columns IH]; simpl; [done|].
  rewrite (String.compare_antisym (key (col c r2)) (key (col c r1))).
  destruct (String.compare (key (col c r1)) (key (col c r2))); simpl; done.
Qed.

Global Instance row_le_total (key : string → string) (columns : list nat) :
  Total (row_le key columns).
Proof.
  intros r1 r2. unfold row_le.
  rewrite (row_compare_antisym key columns r1 r2).
  destruct (row_compare key columns r1 r2); simpl; naive_solver.
Qed.

(** [one_letter_case] on rows that are given: every pair of cells is
    looked at. *)
Ltac one_letter_case_by_cases :=
  let c := fresh "c" in
  let r1 := fresh "r1" in
  let r2 := fresh "r2" in
  let Hc := fresh "Hc" in
  let Hr1 := fresh "Hr1" in
  let Hr2 := fresh "Hr2" in
  let Heq := fresh "Heq" in
  intros c r1 r2 Hc Hr1 Hr2;
  match type of Hr1 with
  | _ ∈ ?l => let l' := eval vm_compute in l in change l with l' in Hr1, Hr2
  end;
  repeat match goal with
         | H : _ ∈ _ :: _ |- _ => apply elem_of_cons in H as [->|H]
         | H : _ ∈ [] |- _ => by apply elem_of_nil in H
         end;
  intros Heq; try reflexivity;
  try rewrite !cell_key_ascii in Heq by reflexivity;
  vm_compute in Heq; discriminate Heq.

Definition mergeSortTables : TableCLI := {|
  cell_key := ToLower_ascii;
  cell_key_ascii := fun s _ => eq_refl;
  rows_Sort := merge_sort (row_le ToLower_ascii [0]);
  rows_SortByColumn := fun columns => merge_sort (row_le ToLower_ascii columns);
  rows_Sort_Permutation := merge_sort_Permutation (row_le ToLower_ascii [0]);
  rows_Sort_Sorted := Sorted_merge_sort (row_le ToLower_ascii [0]);
  rows_SortByColumn_Permutation :=
    fun columns => merge_sort_Permutation (row_le ToLower_ascii columns);
  rows_SortByColumn_Sorted :=
    fun columns rs _ => Sorted_merge_sort (row_le ToLower_ascii columns) rs
|}.

(** ** A concrete outside world

    A server that answers every request with the response [rsp], whose
    body decodes to [volumes], [volume] and [plans] at the three types;
    the URL resolver prefixes a fixed base, no step fails, and option
    values are strings printed as they are.  Values are encoded as
    [key=value] pairs joined by [&], keys in increasing order, without
    escaping; a volume is encoded with each of its fields. *)
Definition plain_Encode (v : Values) : string :=
  strings_Join
    (flat_map (fun k => map (fun x => k +:+ "=" +:+ x) (default [] (v !! k)))
              (sort_Strings (map fst (map_to_list v))))
    "&".

Definition plain_EncodeToValues (v : Volume string) : Values :=
  fold_left (fun m '(k, x) => Values_Set ("Opts." +:+ k) x m) (Volume_Opts v)
    (Values_Set "Name" (Volume_Name v)
      (Values_Set "Plan.Name" (Plan_Name (Volume_Plan v))
        (Values_Set "Pool" (Volume_Pool v)
          (Values_Set "TeamOwner" (Volume_TeamOwner v) ∅)))).

Definition fixedEnv (rsp : Response) (volumes : list (Volume string))
  (volume : Volume string) (plans : list (string * list (VolumePlan string)))
  : Env string := {|
  cmd_GetURLVersion := fun version path =>
    inr ("http://tsuru.example/" +:+ version +:+ path);
  http_NewRequest_err := fun _ _ => None;
  client_Do := fun _ => inr rsp;
  json_Unmarshal_volumes := fun _ => inr volumes;
  json_Unmarshal_volume := fun _ => inr volume;
  json_Unmarshal_plans := fun _ => inr plans;
  form_EncodeToValues := fun v => inr (plain_EncodeToValues v);
  url_Values_Encode := plain_Encode;
  formatter_JSON_err := fun _ => None;
  fmt_Sprint_v := fun v => v
|}.

(** The two volumes of the specification's filtering scenario. *)
Definition data1 : Volume string :=
  mkVolume "data1" "p1" (mkVolumePlan "nfs" []) "t1" [] [].
Definition data2 : Volume string :=
  mkVolume "data2" "p2" (mkVolumePlan "nfs" []) "t2" [] [].

(** * Properties *)

(** ** The filter predicate and the filtering pass *)

(** [kept_in_order P l l']: [l'] is [l] with the elements that fail [P]
    struck out, and nothing else changed. *)
Inductive kept_in_order {A} (P : A → Prop) : list A → list A → Prop :=
| kept_nil : kept_in_order P [] []
| kept_keep x l l' :
    P x → kept_in_order P l l' → kept_in_order P (x :: l) (x :: l')
| kept_drop x l l' :
    ¬ P x → kept_in_order P l l' → kept_in_order P (x :: l) l'.

(** C1: the client-side filter keeps a volume, wherever it stands in the
    input, if and only if the four component comparisons hold for it (name:
    substring; pool, plan, team owner: equality; an empty criterion holds
    for every volume), and drops it if and only if they do not. *)
Theorem clientSideFilter_keeps_iff {OptValue : Type} (c : VolumeList)
  (pre post : list (Volume OptValue)) (v : Volume OptValue) :
  (clientSideFilter c (pre ++ v :: post)
     = clientSideFilter c pre ++ v :: clientSideFilter c post
   ↔ criteria_hold (list_filter c) v) ∧
  (clientSideFilter c (pre ++ v :: post)
     = clientSideFilter c pre ++ clientSideFilter c post
   ↔ ¬ criteria_hold (list_filter c) v).
Proof.
  rewrite <- clientSideFilter_insert_true.
  change (v :: post) with ([v] ++ post).
  rewrite !clientSideFilter_app, clientSideFilter_single.
  destruct (clientSideFilter_insert c v); simpl; split; split; try done.
  - intros Heq. apply (f_equal length) in Heq.
    rewrite !length_app in Heq. simpl in Heq. lia.
  - intros Heq. apply (f_equal length) in Heq.
    rewrite !length_app in Heq. simpl in Heq. lia.
Qed.

Lemma kept_in_order_clientSideFilter {OptValue : Type} (c : VolumeList)
  (volumes : list (Volume OptValue)) :
  kept_in_order (criteria_hold (list_filter c)) volumes
                (clientSideFilter c volumes).
Proof.
  rewrite clientSideFilter_filter.
  induction volumes as [|v volumes IH]; simpl; [constructor|].
  destruct (clientSideFilter_insert c v) eqn:Hv.
  - apply kept_keep; [by apply clientSideFilter_insert_true | done].
  - apply kept_drop; [|done].
    rewrite <- clientSideFilter_insert_true. congruence.
Qed.

(** C6: the filtering pass returns the input with the volumes that fail
    the criteria struck out: the matching volumes, each once, in their
    input order; in particular the result is a subsequence of the input. *)
Theorem clientSideFilter_kept_in_order {OptValue : Type} (c : VolumeList)
  (volumes : list (Volume OptValue)) :
  kept_in_order (criteria_hold (list_filter c)) volumes
                (clientSideFilter c volumes) ∧
  sublist (clientSideFilter c volumes) volumes.
Proof.
  split; [apply kept_in_order_clientSideFilter|].
  apply clientSideFilter_sublist.
Qed.

(** ** Running the effects *)

Section Running.

Context {OptValue : Type} {tables : TableCLI} {env : Env OptValue}.

Local Abbreviation M := (M OptValue).

Lemma M_bind_Done {A B} (tr : list (event OptValue)) (a : A) (f : A → M B) :
  ((tr, Done a) ≫= f) = (tr ++ (f a).1, (f a).2).
Proof. unfold mbind, M_mbind, M_bind. by destruct (f a). Qed.

Lemma M_bind_Failed {A B} (tr : list (event OptValue)) (e : error)
  (f : A → M B) :
  ((tr, Failed e) ≫= f) = (tr, Failed e).
Proof. reflexivity. Qed.

Lemma M_bind_try_inr {A B} (a : A) (f : A → M B) : (try (inr a) ≫= f) = f a.
Proof. unfold try. rewrite M_bind_Done. by destruct (f a). Qed.

Lemma M_bind_emit {B} (ev : event OptValue) (f : unit → M B) :
  (emit ev ≫= f) = (ev :: (f tt).1, (f tt).2).
Proof. unfold emit. by rewrite M_bind_Done. Qed.

Lemma http_NewRequest_ok (method u : string) (body : option string) :
  http_NewRequest_err method u = None →
  http_NewRequest method u body = inr (mkRequest method u body ∅).
Proof. unfold http_NewRequest. by intros ->. Qed.

Lemma Do_ok (request : Request) (rsp : Response) :
  client_Do request = inr rsp → Do request = ([EvDo request], Done rsp).
Proof. unfold Do. rewrite M_bind_emit. by intros ->. Qed.

Lemma io_ReadAll_ok (rsp : Response) (data : string) :
  RspBody rsp = inr data →
  io_ReadAll (OptValue:=OptValue) rsp = ([EvReadAll], Done data).
Proof. unfold io_ReadAll. rewrite M_bind_emit. by intros ->. Qed.

Lemma json_Unmarshal_ok {A} (decode : string → error + A) (data : string)
  (a : A) :
  decode data = inr a →
  json_Unmarshal (OptValue:=OptValue) decode data
    = ([EvUnmarshal data], Done a).
Proof. unfold json_Unmarshal. rewrite M_bind_emit. by intros ->. Qed.

Lemma formatter_JSON_run (p : payload OptValue) :
  formatter_JSON p =
    ([EvFormatterJSON p],
     match formatter_JSON_err p with Some e => Failed e | None => Done tt end).
Proof.
  unfold formatter_JSON. rewrite M_bind_emit.
  by destruct (formatter_JSON_err p).
Qed.

End Running.

(** ** The query string of the list request *)

(** The server answers the request for [path] with [rsp]: the URL
    resolves to [u], the request [request] is built for it and
    [client.Do] returns [rsp] for that request. *)
Definition served {OptValue : Type} {env : Env OptValue} (method path : string)
  (request : Request) (rsp : Response) : Prop :=
  ∃ u, cmd_GetURLVersion "1.4" path = inr u ∧
       http_NewRequest_err method u = None ∧
       request = mkRequest method u None ∅ ∧
       client_Do request = inr rsp.

(** What a criterion contributes to the query: nothing when it is empty,
    its value as the only value of its key otherwise. *)
Definition query_entry (criterion : string) : option (list string) :=
  if decide (criterion = "") then None else Some [criterion].

Lemma strne_empty_decide (s : string) :
  strne s "" = if decide (s = "") then false else true.
Proof.
  case_decide as Hs.
  - by apply strne_false_iff.
  - by apply strne_true_iff.
Qed.

Lemma queryString_lookup (f : volumeFilter) :
  ∃ qs : Values,
    queryString f = inr qs ∧
    qs !! "name" = query_entry (filter_name f) ∧
    qs !! "pool" = query_entry (filter_pool f) ∧
    qs !! "plan" = query_entry (filter_plan f) ∧
    qs !! "teamOwner" = query_entry (filter_teamOwner f) ∧
    (∀ k, k ∉ ["name"; "pool"; "plan"; "teamOwner"] → qs !! k = None).
Proof.
  destruct f as [n po pl t]; unfold queryString; simpl.
  eexists; split; [reflexivity|].
  unfold query_entry, Values_Set; rewrite !strne_empty_decide.
  repeat split.
  - repeat case_decide; by simplify_map_eq.
  - repeat case_decide; by simplify_map_eq.
  - repeat case_decide; by simplify_map_eq.
  - repeat case_decide; by simplify_map_eq.
  - intros k Hk.
    assert (k ≠ "name" ∧ k ≠ "pool" ∧ k ≠ "plan" ∧ k ≠ "teamOwner")
      as (?&?&?&?) by set_solver.
    repeat case_decide; by simplify_map_eq.
Qed.

(** The list handler, up to the response of the server. *)
Lemma VolumeList_Run_served {OptValue : Type} {tables : TableCLI}
  {env : Env OptValue} (c : VolumeList)
  (ctx : Context) (qs : Values) (request : Request) (rsp : Response) :
  queryString (list_filter c) = inr qs →
  served "GET" ("/volumes?" +:+ url_Values_Encode qs) request rsp →
  VolumeList_Run c ctx =
    ([EvDo request], Done rsp) ≫= (fun rsp =>
      if Nat.eqb (StatusCode rsp) http_StatusNoContent then
        emit (EvFprint ("No volumes available." +:+ nl))
      else
        data ← io_ReadAll rsp;
        volumes ← json_Unmarshal json_Unmarshal_volumes data;
        VolumeList_render c (clientSideFilter c volumes)).
Proof.
  intros Hqs (u & Hu & Hreq & -> & Hdo).
  unfold VolumeList_Run.
  rewrite Hqs, M_bind_try_inr, Hu, M_bind_try_inr.
  rewrite (http_NewRequest_ok _ _ _ Hreq), M_bind_try_inr.
  by rewrite (Do_ok _ _ Hdo).
Qed.

(** C9: the values [queryString] builds hold, under the keys [name],
    [pool], [plan] and [teamOwner], exactly the non-empty criteria, each as
    the single value of its key, and no other key; [queryString] never
    fails, and the list request is made for the path ["/volumes?"] followed
    by the encoding of these values. *)
Theorem queryString_exact {OptValue : Type} {tables : TableCLI}
  {env : Env OptValue} (c : VolumeList)
  (ctx : Context) :
  ∃ qs : Values,
    queryString (list_filter c) = inr qs ∧
    qs !! "name" = query_entry (filter_name (list_filter c)) ∧
    qs !! "pool" = query_entry (filter_pool (list_filter c)) ∧
    qs !! "plan" = query_entry (filter_plan (list_filter c)) ∧
    qs !! "teamOwner" = query_entry (filter_teamOwner (list_filter c)) ∧
    (∀ k, k ∉ ["name"; "pool"; "plan"; "teamOwner"] → qs !! k = None) ∧
    (∀ request rsp,
       served "GET" ("/volumes?" +:+ url_Values_Encode qs) request rsp →
       ∃ tr o, VolumeList_Run c ctx = (EvDo request :: tr, o)).
Proof.
  destruct (queryString_lookup (list_filter c))
    as (qs & Hqs & Hn & Hpo & Hpl & Ht & Hk).
  exists qs. repeat (split; [done|]).
  intros request rsp Hserved.
  rewrite (VolumeList_Run_served c ctx qs request rsp Hqs Hserved).
  rewrite M_bind_Done. simpl. eauto.
Qed.

(** ** The output modes of the list command *)

Section Render.

Context {OptValue : Type} {tables : TableCLI} {env : Env OptValue}.

(** The row of a volume in the table of the list command. *)
Definition volumeRow (v : Volume OptValue) : Row :=
  [Volume_Name v; Plan_Name (Volume_Plan v); Volume_Pool v; Volume_TeamOwner v].

Lemma fold_left_AddRow {A} (f : A → Row) (l : list A) (t : Table) :
  fold_left (fun t a => AddRow (f a) t) l t
  = mkTable (Headers t) (LineSeparator t) (rows t ++ map f l).
Proof.
  revert t; induction l as [|a l IH]; intros t; simpl.
  - rewrite app_nil_r. by destruct t.
  - rewrite IH. simpl. by rewrite <- app_assoc.
Qed.

Lemma Fprintln_names_run (volumes : list (Volume OptValue)) :
  Fprintln_names volumes
  = (map (fun v => EvFprint (Volume_Name v +:+ nl)) volumes, Done tt).
Proof.
  induction volumes as [|v volumes IH]; cbn [Fprintln_names]; [done|].
  by rewrite M_bind_emit, IH.
Qed.

Lemma VolumeList_render_run (c : VolumeList) (volumes : list (Volume OptValue)) :
  VolumeList_render c volumes =
    if list_simplified c then
      (map (fun v => EvFprint (Volume_Name v +:+ nl)) volumes, Done tt)
    else if list_json c then
      ([EvFormatterJSON (PVolumes volumes)],
       match formatter_JSON_err (PVolumes volumes) with
       | Some e => Failed e
       | None => Done tt
       end)
    else
      ([EvFprintTable
          (mkTable ["Name"; "Plan"; "Pool"; "Team"] true
                   (rows_Sort (map volumeRow volumes)))],
       Done tt).
Proof.
  unfold VolumeList_render.
  destruct (list_simplified c); [apply Fprintln_names_run|].
  destruct (list_json c); [apply formatter_JSON_run|].
  by rewrite (fold_left_AddRow volumeRow).
Qed.

End Render.

(** C5: the list command chooses its output by ordered precedence: with
    [simplified] set it prints the names, one per line, in input order,
    whatever [json] is; otherwise with [json] set it hands the volumes to
    the JSON formatter; otherwise it prints the table.  With both flags set
    only names are printed, and the JSON formatter is not called. *)
Theorem VolumeList_render_precedence {OptValue : Type} {tables : TableCLI}
  {env : Env OptValue}
  (c : VolumeList) (volumes : list (Volume OptValue)) :
  VolumeList_render c volumes =
    match list_simplified c, list_json c with
    | true, _ =>
        (map (fun v => EvFprint (Volume_Name v +:+ nl)) volumes, Done tt)
    | false, true =>
        ([EvFormatterJSON (PVolumes volumes)],
         match formatter_JSON_err (PVolumes volumes) with
         | Some e => Failed e
         | None => Done tt
         end)
    | false, false =>
        ([EvFprintTable
            (mkTable ["Name"; "Plan"; "Pool"; "Team"] true
                     (rows_Sort (map volumeRow volumes)))],
         Done tt)
    end.
Proof.
  rewrite VolumeList_render_run.
  by destruct (list_simplified c), (list_json c).
Qed.

(** ** The "no content" status *)

(** C4: when the server answers the list request, or the info request,
    with status 204, the handler prints exactly ["No volumes available."]
    and a line feed and returns nil: the run consists of the request and
    this one print, so the body is not read, nothing is decoded and no
    table or JSON is written. *)
Theorem no_content_fixed_message {OptValue : Type} {tables : TableCLI}
  {env : Env OptValue} :
  (∀ (c : VolumeList) (ctx : Context) qs request rsp,
     queryString (list_filter c) = inr qs →
     served "GET" ("/volumes?" +:+ url_Values_Encode qs) request rsp →
     StatusCode rsp = 204 →
     VolumeList_Run c ctx =
       ([EvDo request; EvFprint ("No volumes available." +:+ nl)], Done tt)) ∧
  (∀ (c : VolumeInfo) (volumeName : string) (rest : list string) request rsp,
     served "GET" ("/volumes/" +:+ volumeName) request rsp →
     StatusCode rsp = 204 →
     VolumeInfo_Run c (mkContext (volumeName :: rest)) =
       ([EvDo request; EvFprint ("No volumes available." +:+ nl)], Done tt)).
Proof.
  split.
  - intros c ctx qs request rsp Hqs Hserved Hstatus.
    rewrite (VolumeList_Run_served c ctx qs request rsp Hqs Hserved).
    rewrite M_bind_Done, Hstatus. reflexivity.
  - intros c volumeName rest request rsp (u & Hu & Hreq & -> & Hdo) Hstatus.
    unfold VolumeInfo_Run; simpl.
    rewrite Hu, M_bind_try_inr.
    rewrite (http_NewRequest_ok _ _ _ Hreq), M_bind_try_inr.
    rewrite (Do_ok _ _ Hdo), M_bind_Done, Hstatus. reflexivity.
Qed.

(** C10: when the server answers the plan-list request with status 204,
    the handler reads and decodes nothing and prints no message: the run
    consists of the request and the print of a table with the headers
    Plan, Provisioner, Opts and no rows, and it returns nil. *)
Theorem VolumePlansList_no_content {OptValue : Type} {tables : TableCLI}
  {env : Env OptValue}
  (ctx : Context) (request : Request) (rsp : Response) :
  served "GET" "/volumeplans" request rsp →
  StatusCode rsp = 204 →
  VolumePlansList_Run ctx =
    ([EvDo request;
      EvFprintTable (mkTable ["Plan"; "Provisioner"; "Opts"] true [])],
     Done tt).
Proof.
  intros (u & Hu & Hreq & -> & Hdo) Hstatus.
  unfold VolumePlansList_Run.
  rewrite Hu, M_bind_try_inr.
  rewrite (http_NewRequest_ok _ _ _ Hreq), M_bind_try_inr.
  rewrite (Do_ok _ _ Hdo), M_bind_Done, Hstatus. simpl.
  unfold VolumePlansList_render, Table_SortByColumn; simpl.
  pose proof (rows_SortByColumn_Permutation [0; 1] []) as Hperm.
  apply Permutation_nil_r in Hperm. by rewrite Hperm.
Qed.

(** ** JSON output of the list command *)

(** A volume list that asks for JSON, filtered by pool [p1], and the
    world in which the server answers 200 with a body that decodes to
    [data1; data2]. *)
Definition jsonByPool : VolumeList :=
  mkVolumeList (mkVolumeFilter "" "p1" "" "") false true.

Definition twoVolumesEnv : Env string :=
  fixedEnv (mkResponse 200 (inr "[two volumes]")) [data1; data2] data1 [].

Definition listRequest : Request :=
  mkRequest "GET" "http://tsuru.example/1.4/volumes?pool=p1" None ∅.

(** C3, as stated, fails: with the criterion pool = p1 and JSON output,
    the body decodes to [data1; data2] but the JSON formatter is given
    [data1] alone; the decoded list is never printed. *)
Lemma VolumeList_json_not_decoded_list :
  json_Unmarshal_volumes (Env:=twoVolumesEnv) "[two volumes]"
    = inr [data1; data2] ∧
  VolumeList_Run (tables:=mergeSortTables) (env:=twoVolumesEnv)
                 jsonByPool (mkContext [])
    = ([EvDo listRequest; EvReadAll; EvUnmarshal "[two volumes]";
        EvFormatterJSON (PVolumes [data1])], Done tt) ∧
  EvFormatterJSON (PVolumes [data1; data2])
    ∉ (VolumeList_Run (tables:=mergeSortTables) (env:=twoVolumesEnv)
                      jsonByPool (mkContext [])).1.
Proof.
  assert (VolumeList_Run (tables:=mergeSortTables) (env:=twoVolumesEnv)
                         jsonByPool (mkContext [])
          = ([EvDo listRequest; EvReadAll; EvUnmarshal "[two volumes]";
              EvFormatterJSON (PVolumes [data1])], Done tt)) as Hrun
    by (vm_compute; reflexivity).
  split; [reflexivity|]. split; [exact Hrun|].
  rewrite Hrun. simpl.
  rewrite !elem_of_cons, elem_of_nil.
  intros [Heq|[Heq|[Heq|[Heq|[]]]]]; discriminate Heq.
Qed.

Lemma clientSideFilter_all {OptValue : Type} (c : VolumeList)
  (volumes : list (Volume OptValue)) :
  Forall (criteria_hold (list_filter c)) volumes →
  clientSideFilter c volumes = volumes.
Proof.
  rewrite clientSideFilter_filter.
  induction 1 as [|v volumes Hv _ IH]; simpl; [done|].
  apply clientSideFilter_insert_true in Hv. by rewrite Hv, IH.
Qed.

(** C3, amended: when the response is not a 204 and its body decodes,
    and JSON output is selected ([json] set and [simplified] not), the run
    is: the request, the read of the body, its decoding, and one call of the
    JSON formatter on the decoded list after the client-side filter, that
    is the decoded volumes that meet the criteria, in decoded order; this
    is the whole decoded list when every decoded volume meets them. *)
Theorem VolumeList_json_emits_filtered {OptValue : Type} {tables : TableCLI}
  {env : Env OptValue}
  (c : VolumeList) (ctx : Context) (qs : Values) (request : Request)
  (rsp : Response) (data : string) (decoded : list (Volume OptValue)) :
  queryString (list_filter c) = inr qs →
  served "GET" ("/volumes?" +:+ url_Values_Encode qs) request rsp →
  StatusCode rsp ≠ 204 →
  RspBody rsp = inr data →
  json_Unmarshal_volumes data = inr decoded →
  list_simplified c = false →
  list_json c = true →
  (VolumeList_Run c ctx).1
    = [EvDo request; EvReadAll; EvUnmarshal data;
       EvFormatterJSON (PVolumes (clientSideFilter c decoded))] ∧
  kept_in_order (criteria_hold (list_filter c)) decoded
                (clientSideFilter c decoded) ∧
  (Forall (criteria_hold (list_filter c)) decoded →
   clientSideFilter c decoded = decoded).
Proof.
  intros Hqs Hserved Hstatus Hbody Hdecode Hsimplified Hjson.
  split; [|split].
  - rewrite (VolumeList_Run_served c ctx qs request rsp Hqs Hserved).
    rewrite M_bind_Done.
    apply Nat.eqb_neq in Hstatus. unfold http_StatusNoContent.
    rewrite Hstatus.
    rewrite (io_ReadAll_ok _ _ Hbody), M_bind_Done.
    rewrite (json_Unmarshal_ok _ _ _ Hdecode), M_bind_Done.
    rewrite VolumeList_render_run, Hsimplified, Hjson. reflexivity.
  - apply kept_in_order_clientSideFilter.
  - apply clientSideFilter_all.
Qed.

(** ** Row orders, read on the cells *)


Lemma str_le_compare (a b : string) : str_le a b ↔ String.compare a b ≠ Gt.
Proof.
  unfold str_le, String.leb. destruct (String.compare a b); naive_solver.
Qed.

(** Rows in increasing order of their first column, the cells compared
    bytewise in the form [key] gives them. *)
Definition key_le_by (key : string → string) (r1 r2 : Row) : Prop :=
  str_le (key (col 0 r1)) (key (col 0 r2)).


(** The two orders as the table library compares cells: without regard
    to letter case. *)
Definition key_le {tables : TableCLI} : Row → Row → Prop := key_le_by cell_key.

(** The two orders on the cells as they are: Go's string order. *)
Definition bytes_key_le : Row → Row → Prop := key_le_by (fun s => s).

Lemma row_le_0_iff_by (key : string → string) (r1 r2 : Row) :
  row_le key [0] r1 r2 ↔ key_le_by key r1 r2.
Proof.
  unfold row_le, key_le_by; simpl. rewrite str_le_compare.
  by destruct (String.compare (key (col 0 r1)) (key (col 0 r2))).
Qed.


Lemma row_le_0_iff {tables : TableCLI} (r1 r2 : Row) :
  row_le cell_key [0] r1 r2 ↔ key_le r1 r2.
Proof. apply row_le_0_iff_by. Qed.


Lemma Sorted_iff {A} (R1 R2 : A → A → Prop) (l : list A) :
  (∀ x y, R1 x y ↔ R2 x y) → Sorted R1 l → Sorted R2 l.
Proof.
  intros HR. induction 1 as [|x l _ IH Hhd]; constructor; [done|].
  destruct Hhd; constructor. by apply HR.
Qed.

Lemma fold_left_AddRow_ext {A} (g : Table → A → Table) (f : A → Row)
  (l : list A) (t : Table) :
  (∀ t a, g t a = AddRow (f a) t) →
  fold_left g l t = mkTable (Headers t) (LineSeparator t) (rows t ++ map f l).
Proof.
  intros Hg. revert t; induction l as [|a l IH]; intros t; simpl.
  - rewrite app_nil_r. by destruct t.
  - rewrite IH, Hg. simpl. by rewrite <- app_assoc.
Qed.

Lemma fold_left_snoc_map {A B} (g : list B → A → list B) (f : A → B)
  (l : list A) (acc : list B) :
  (∀ acc a, g acc a = acc ++ [f a]) →
  fold_left g l acc = acc ++ map f l.
Proof.
  intros Hg. revert acc; induction l as [|a l IH]; intros acc; simpl.
  - by rewrite app_nil_r.
  - rewrite IH, Hg. by rewrite <- app_assoc.
Qed.

(** ** The table of the plan-list command *)

Section Plans.

Context {OptValue : Type} {tables : TableCLI} {env : Env OptValue}.

(** An option of a plan as it is shown: ["key: value"]. *)
Definition optLine (kv : string * OptValue) : string :=
  kv.1 +:+ ": " +:+ fmt_Sprint_v kv.2.


(** One row per plan of each provisioner: plan, provisioner, options. *)
Definition planRows (plans : list (string * list (VolumePlan OptValue)))
  : list Row :=
  flat_map
    (fun '(provisioner, provPlans) =>
       map (fun p => [Plan_Name p; provisioner; planOptsCell p]) provPlans)
    plans.


(** The cell does not depend on the order in which the runtime yields the
    options of the plan. *)
Lemma planOptsCell_order (p1 p2 : VolumePlan OptValue) :
  Plan_Opts p1 ≡ₚ Plan_Opts p2 → planOptsCell p1 = planOptsCell p2.
Proof.
  intros Hperm. unfold planOptsCell.
  rewrite !(fold_left_snoc_map _ optLine) by (by intros acc [k v]).
  simpl. f_equal. unfold sort_Strings.
  apply (Sorted_unique str_le).
  - apply Sorted_merge_sort, _.
  - apply Sorted_merge_sort, _.
  - rewrite !merge_sort_Permutation. by apply Permutation_map.
Qed.

Lemma plans_fold_rows (plans : list (string * list (VolumePlan OptValue)))
  (t : Table) :
  fold_left
    (fun tbl '(provisioner, provPlans) =>
       fold_left
         (fun tbl p => AddRow [Plan_Name p; provisioner; planOptsCell p] tbl)
         provPlans tbl)
    plans t
  = mkTable (Headers t) (LineSeparator t) (rows t ++ planRows plans).
Proof.
  revert t; induction plans as [|[provisioner provPlans] plans IH];
    intros t; simpl.
  - rewrite app_nil_r. by destruct t.
  - rewrite IH.
    rewrite (fold_left_AddRow
               (fun p => [Plan_Name p; provisioner; planOptsCell p])).
    simpl. by rewrite <- app_assoc.
Qed.

End Plans.


(** ** The info view *)

Section Info.

Context {OptValue : Type} {tables : TableCLI} {env : Env OptValue}.

(** The fixed-field summary that opens the info view. *)
Definition summary (volume : Volume OptValue) : string :=
  "Name: " +:+ Volume_Name volume +:+ nl +:+
  "Plan: " +:+ Plan_Name (Volume_Plan volume) +:+ nl +:+
  "Pool: " +:+ Volume_Pool volume +:+ nl +:+
  "Team: " +:+ Volume_TeamOwner volume +:+ nl.

Definition planOptRow (kv : string * OptValue) : Row :=
  [kv.1; fmt_Sprint_v kv.2].

Definition optRow (kv : string * string) : Row := [kv.1; kv.2].

Lemma VolumeInfo_render_run (c : VolumeInfo) (volume : Volume OptValue) :
  VolumeInfo_render c volume =
    ([EvFprint (summary volume);
      EvFprint (nl +:+ "Binds:" +:+ nl);
      EvFprintTable
        (mkTable ["App"; "MountPoint"; "Mode"] true
                 (map bindRow (Volume_Binds volume)));
      EvFprint (nl +:+ "Plan Opts:" +:+ nl);
      EvFprintTable
        (mkTable ["Key"; "Value"] true
           (rows_Sort (map planOptRow (Plan_Opts (Volume_Plan volume)))));
      EvFprint (nl +:+ "Opts:" +:+ nl);
      EvFprintTable
        (mkTable ["Key"; "Value"] true
           (rows_Sort (map optRow (Volume_Opts volume))))],
     Done tt).
Proof.
  unfold VolumeInfo_render.
  rewrite (fold_left_AddRow bindRow).
  rewrite (fold_left_AddRow_ext _ planOptRow) by (by intros t [k v]).
  rewrite (fold_left_AddRow_ext _ optRow) by (by intros t [k v]).
  rewrite !M_bind_emit. reflexivity.
Qed.

End Info.

(** C8, amended: the info view prints the summary (Name, Plan, Pool,
    Team), then under "Binds:" a table App, MountPoint, Mode with one row
    per bind in bind order, whose Mode is ["ro"] for a read-only bind and
    ["rw"] otherwise, then under "Plan Opts:" and "Opts:" two tables Key,
    Value whose rows are the options, in increasing order of Key as the
    table library compares cells, that is without regard to letter case
    (for ASCII text, in the order of the keys in lower case); it returns
    nil; and a volume without binds, plan options or options gets the
    corresponding table with its headers and no row. *)
Theorem VolumeInfo_render_view {OptValue : Type} {tables : TableCLI}
  {env : Env OptValue} (c : VolumeInfo)
  (volume : Volume OptValue) :
  ∃ planOptsRows optsRows : list Row,
    VolumeInfo_render c volume =
      ([EvFprint (summary volume);
        EvFprint (nl +:+ "Binds:" +:+ nl);
        EvFprintTable
          (mkTable ["App"; "MountPoint"; "Mode"] true
                   (map bindRow (Volume_Binds volume)));
        EvFprint (nl +:+ "Plan Opts:" +:+ nl);
        EvFprintTable (mkTable ["Key"; "Value"] true planOptsRows);
        EvFprint (nl +:+ "Opts:" +:+ nl);
        EvFprintTable (mkTable ["Key"; "Value"] true optsRows)],
       Done tt) ∧
    (∀ b, bindRow b =
          [BindID_App (Bind_ID b); BindID_MountPoint (Bind_ID b);
           if Bind_ReadOnly b then "ro" else "rw"]) ∧
    planOptsRows ≡ₚ map planOptRow (Plan_Opts (Volume_Plan volume)) ∧
    Sorted key_le planOptsRows ∧
    optsRows ≡ₚ map optRow (Volume_Opts volume) ∧
    Sorted key_le optsRows ∧
    (∀ s, ascii_only s = true → cell_key s = ToLower_ascii s) ∧
    (Volume_Binds volume = [] → map bindRow (Volume_Binds volume) = []) ∧
    (Plan_Opts (Volume_Plan volume) = [] → planOptsRows = []) ∧
    (Volume_Opts volume = [] → optsRows = []).
Proof.
  rewrite VolumeInfo_render_run.
  eexists _, _; split; [reflexivity|].
  split; [intros b; unfold bindRow; by destruct (Bind_ReadOnly b)|].
  split; [apply rows_Sort_Permutation|].
  split; [eapply Sorted_iff; [apply row_le_0_iff|]; apply rows_Sort_Sorted|].
  split; [apply rows_Sort_Permutation|].
  split; [eapply Sorted_iff; [apply row_le_0_iff|]; apply rows_Sort_Sorted|].
  split; [apply cell_key_ascii|].
  split; [by intros ->|].
  split; intros ->; simpl; apply Permutation_nil_r, rows_Sort_Permutation.
Qed.

(** ** The request body of create and update *)

(** The volume that [volume create] and [volume update] describe: pool
    and team are the flag values as they are, empty when the flag is not
    given. *)
Definition described {OptValue : Type} (volumeName planName pool team : string)
  (opt : list (string * string)) : Volume OptValue :=
  mkVolume volumeName pool (mkVolumePlan planName []) team [] opt.

Lemma Do_then {OptValue : Type} {tables : TableCLI} {env : Env OptValue}
  {B} (request : Request) (f : Response → M OptValue B) :
  ∃ tr o, (Do request ≫= f) = (EvDo request :: tr, o).
Proof.
  unfold Do. rewrite M_bind_emit.
  destruct (client_Do request) as [e|rsp]; unfold try; cbn [fst snd].
  - rewrite M_bind_Failed. eauto.
  - rewrite M_bind_Done. simpl. eauto.
Qed.

(** Both handlers post the encoding of what [form.EncodeToValues] returns
    for the described volume; they select no field themselves. *)
Lemma VolumeCreate_Run_body {OptValue : Type} {tables : TableCLI}
  {env : Env OptValue} (c : VolumeCreate) (volumeName planName : string)
  (rest : list string) (val : Values) (u : string) :
  form_EncodeToValues
    (described volumeName planName (create_pool c) (create_team c)
               (create_opt c)) = inr val →
  cmd_GetURLVersion "1.4" "/volumes" = inr u →
  http_NewRequest_err "POST" u = None →
  ∃ tr o,
    VolumeCreate_Run c (mkContext (volumeName :: planName :: rest)) =
      (EvDo (mkRequest "POST" u (Some (url_Values_Encode val))
               {["Content-Type" := "application/x-www-form-urlencoded"]})
         :: tr, o).
Proof.
  intros Hval Hu Hreq. unfold VolumeCreate_Run, described in *; simpl.
  rewrite Hval, M_bind_try_inr, Hu, M_bind_try_inr.
  rewrite (http_NewRequest_ok _ _ _ Hreq), M_bind_try_inr.
  unfold Header_Set; simpl. rewrite insert_empty. apply Do_then.
Qed.

Lemma VolumeUpdate_Run_body {OptValue : Type} {tables : TableCLI}
  {env : Env OptValue} (c : VolumeUpdate) (volumeName planName : string)
  (rest : list string) (val : Values) (u : string) :
  form_EncodeToValues
    (described volumeName planName (update_pool c) (update_team c)
               (update_opt c)) = inr val →
  cmd_GetURLVersion "1.4" ("/volumes/" +:+ volumeName) = inr u →
  http_NewRequest_err "POST" u = None →
  ∃ tr o,
    VolumeUpdate_Run c (mkContext (volumeName :: planName :: rest)) =
      (EvDo (mkRequest "POST" u (Some (url_Values_Encode val))
               {["Content-Type" := "application/x-www-form-urlencoded"]})
         :: tr, o).
Proof.
  intros Hval Hu Hreq. unfold VolumeUpdate_Run, described in *; simpl.
  rewrite Hval, M_bind_try_inr, Hu, M_bind_try_inr.
  rewrite (http_NewRequest_ok _ _ _ Hreq), M_bind_try_inr.
  unfold Header_Set; simpl. rewrite insert_empty. apply Do_then.
Qed.

(** ** Scenarios *)

Definition byPool (pool : string) : VolumeList :=
  mkVolumeList (mkVolumeFilter "" pool "" "") false false.
Definition byName (name : string) : VolumeList :=
  mkVolumeList (mkVolumeFilter name "" "" "") false false.
Definition byPlan (plan : string) : VolumeList :=
  mkVolumeList (mkVolumeFilter "" "" plan "") false false.
Definition byTeam (team : string) : VolumeList :=
  mkVolumeList (mkVolumeFilter "" "" "" team) false false.

Example filter_pool_p1 : clientSideFilter (byPool "p1") [data1; data2] = [data1].
Proof. reflexivity. Qed.

Example filter_empty_keeps_all :
  clientSideFilter (byPool "") [data1; data2] = [data1; data2].
Proof. reflexivity. Qed.

Example filter_name_substring :
  clientSideFilter (byName "ta2") [data1; data2] = [data2] ∧
  clientSideFilter (byName "ata") [data1; data2] = [data1; data2].
Proof. split; reflexivity. Qed.

Example filter_name_case_sensitive :
  clientSideFilter (byName "Data") [data1; data2] = [].
Proof. reflexivity. Qed.

Example filter_pool_is_not_substring :
  clientSideFilter (byPool "p") [data1; data2] = [].
Proof. reflexivity. Qed.

Example filter_plan_exact :
  clientSideFilter (byPlan "nfs") [data1; data2] = [data1; data2] ∧
  clientSideFilter (byPlan "nf") [data1; data2] = [].
Proof. split; reflexivity. Qed.

Example filter_team_exact :
  clientSideFilter (byTeam "t2") [data1; data2] = [data2] ∧
  clientSideFilter (byTeam "t") [data1; data2] = [].
Proof. split; reflexivity. Qed.

(** Both [-q] and [--json]: names only. *)
Example render_simplified_wins :
  VolumeList_render (tables:=mergeSortTables) (env:=twoVolumesEnv)
    (mkVolumeList (mkVolumeFilter "" "" "" "") true true) [data2; data1]
  = ([EvFprint ("data2" +:+ nl); EvFprint ("data1" +:+ nl)], Done tt).
Proof. reflexivity. Qed.

(** The plan-list scenario: [{"docker":[{"Name":"nfs","Opts":{"size":"10"}}]}]. *)
Example plans_scenario :
  VolumePlansList_render (tables:=mergeSortTables) (env:=twoVolumesEnv)
    [("docker", [mkVolumePlan "nfs" [("size", "10")]])]
  = ([EvFprintTable
        (mkTable ["Plan"; "Provisioner"; "Opts"] true
                 [["nfs"; "docker"; "size: 10"]])], Done tt).
Proof. vm_compute. reflexivity. Qed.

(** Rows come out by plan, then by provisioner, and the options of a
    cell in increasing order, whatever the order of the maps. *)
Example plans_sorted :
  VolumePlansList_render (tables:=mergeSortTables) (env:=twoVolumesEnv)
    [("swarm", [mkVolumePlan "nfs" []; mkVolumePlan "ebs" []]);
     ("docker", [mkVolumePlan "nfs" [("size", "10"); ("access", "rw")]])]
  = ([EvFprintTable
        (mkTable ["Plan"; "Provisioner"; "Opts"] true
                 [["ebs"; "swarm"; ""];
                  ["nfs"; "docker"; "access: rw" +:+ nl +:+ "size: 10"];
                  ["nfs"; "swarm"; ""]])], Done tt).
Proof. vm_compute. reflexivity. Qed.

(** ** Instances of the conditional statements *)

Definition noContentEnv : Env string :=
  fixedEnv (mkResponse 204 (inr "")) [] data1 [].

Definition getRequest (path : string) : Request :=
  mkRequest "GET" ("http://tsuru.example/1.4" +:+ path) None ∅.

Lemma fixedEnv_served (rsp : Response) (volumes : list (Volume string))
  (volume : Volume string) (plans : list (string * list (VolumePlan string)))
  (path : string) :
  served (env:=fixedEnv rsp volumes volume plans)
         "GET" path (getRequest path) rsp.
Proof. exists ("http://tsuru.example/1.4" +:+ path). by repeat split. Qed.

(** The amended C3 at the two-volume response: the formatter is given
    the filtered list. *)
Lemma VolumeList_json_emits_filtered_witness :
  (VolumeList_Run (tables:=mergeSortTables) (env:=twoVolumesEnv)
                  jsonByPool (mkContext [])).1
    = [EvDo listRequest; EvReadAll; EvUnmarshal "[two volumes]";
       EvFormatterJSON (PVolumes (clientSideFilter jsonByPool [data1; data2]))] ∧
  kept_in_order (criteria_hold (list_filter jsonByPool)) [data1; data2]
                (clientSideFilter jsonByPool [data1; data2]) ∧
  (Forall (criteria_hold (list_filter jsonByPool)) [data1; data2] →
   clientSideFilter jsonByPool [data1; data2] = [data1; data2]).
Proof.
  apply (VolumeList_json_emits_filtered
           (tables:=mergeSortTables) (env:=twoVolumesEnv)
           jsonByPool (mkContext [])
           (Values_Set "pool" "p1" ∅) listRequest
           (mkResponse 200 (inr "[two volumes]")) "[two volumes]").
  - reflexivity.
  - exists "http://tsuru.example/1.4/volumes?pool=p1".
    split; [vm_compute; reflexivity|]. by repeat split.
  - simpl. lia.
  - reflexivity.
  - reflexivity.
  - reflexivity.
  - reflexivity.
Defined.

(** C4 at a server that answers 204: the list and the info handler. *)
Lemma no_content_fixed_message_witness :
  VolumeList_Run (tables:=mergeSortTables) (env:=noContentEnv)
                 (byPool "p1") (mkContext [])
    = ([EvDo listRequest; EvFprint ("No volumes available." +:+ nl)],
       Done tt) ∧
  VolumeInfo_Run (tables:=mergeSortTables) (env:=noContentEnv)
                 (mkVolumeInfo false) (mkContext ["data1"])
    = ([EvDo (getRequest "/volumes/data1");
        EvFprint ("No volumes available." +:+ nl)], Done tt).
Proof.
  split.
  - apply (proj1 (no_content_fixed_message
                    (tables:=mergeSortTables) (env:=noContentEnv))
                 (byPool "p1") (mkContext []) (Values_Set "pool" "p1" ∅)
                 listRequest (mkResponse 204 (inr ""))).
    + reflexivity.
    + exists "http://tsuru.example/1.4/volumes?pool=p1".
      split; [vm_compute; reflexivity|]. by repeat split.
    + reflexivity.
  - apply (proj2 (no_content_fixed_message
                    (tables:=mergeSortTables) (env:=noContentEnv))
                 (mkVolumeInfo false) "data1" []
                 (getRequest "/volumes/data1") (mkResponse 204 (inr ""))).
    + apply fixedEnv_served.
    + reflexivity.
Defined.

(** C10 at a server that answers 204. *)
Lemma VolumePlansList_no_content_witness :
  served (env:=noContentEnv) "GET" "/volumeplans"
         (getRequest "/volumeplans") (mkResponse 204 (inr "")) ∧
  VolumePlansList_Run (tables:=mergeSortTables) (env:=noContentEnv)
                      (mkContext [])
    = ([EvDo (getRequest "/volumeplans");
        EvFprintTable (mkTable ["Plan"; "Provisioner"; "Opts"] true [])],
       Done tt).
Proof.
  split; [apply fixedEnv_served|].
  apply (VolumePlansList_no_content
           (tables:=mergeSortTables) (env:=noContentEnv)
           (mkContext []) (getRequest "/volumeplans")
           (mkResponse 204 (inr ""))).
  - apply fixedEnv_served.
  - reflexivity.
Defined.

(** C9 at the filter on pool [p1], in the sample world. *)
Lemma queryString_exact_witness :
  ∃ qs : Values,
    queryString (list_filter jsonByPool) = inr qs ∧
    qs !! "name" = query_entry (filter_name (list_filter jsonByPool)) ∧
    qs !! "pool" = query_entry (filter_pool (list_filter jsonByPool)) ∧
    qs !! "plan" = query_entry (filter_plan (list_filter jsonByPool)) ∧
    qs !! "teamOwner"
      = query_entry (filter_teamOwner (list_filter jsonByPool)) ∧
    (∀ k, k ∉ ["name"; "pool"; "plan"; "teamOwner"] → qs !! k = None) ∧
    (∀ request rsp,
       served (env:=twoVolumesEnv) "GET"
              ("/volumes?" +:+ url_Values_Encode (Env:=twoVolumesEnv) qs)
              request rsp →
       ∃ tr o,
         VolumeList_Run (tables:=mergeSortTables) (env:=twoVolumesEnv)
                        jsonByPool (mkContext [])
         = (EvDo request :: tr, o)).
Proof.
  exact (queryString_exact (tables:=mergeSortTables) (env:=twoVolumesEnv)
                           jsonByPool (mkContext [])).
Defined.



(** A volume bound twice, once read-only, with options. *)
Definition boundVolume : Volume string :=
  mkVolume "data1" "p1"
    (mkVolumePlan "nfs" [("size", "10"); ("access", "rw")]) "t1"
    [mkVolumeBind (mkVolumeBindID "web" "/mnt/a") true;
     mkVolumeBind (mkVolumeBindID "api" "/mnt/b") false]
    [("zone", "z1"); ("backup", "daily")].

Example info_of_boundVolume :
  VolumeInfo_render (tables:=mergeSortTables) (env:=twoVolumesEnv)
                    (mkVolumeInfo false) boundVolume
  = ([EvFprint ("Name: data1" +:+ nl +:+ "Plan: nfs" +:+ nl +:+
                "Pool: p1" +:+ nl +:+ "Team: t1" +:+ nl);
      EvFprint (nl +:+ "Binds:" +:+ nl);
      EvFprintTable
        (mkTable ["App"; "MountPoint"; "Mode"] true
                 [["web"; "/mnt/a"; "ro"]; ["api"; "/mnt/b"; "rw"]]);
      EvFprint (nl +:+ "Plan Opts:" +:+ nl);
      EvFprintTable
        (mkTable ["Key"; "Value"] true [["access"; "rw"]; ["size"; "10"]]);
      EvFprint (nl +:+ "Opts:" +:+ nl);
      EvFprintTable
        (mkTable ["Key"; "Value"] true [["backup"; "daily"]; ["zone"; "z1"]])],
     Done tt).
Proof. vm_compute. reflexivity. Qed.

(** The info scenario: a volume without binds. *)
Example info_without_binds :
  VolumeInfo_render (tables:=mergeSortTables) (env:=twoVolumesEnv)
                    (mkVolumeInfo false) data1
  = ([EvFprint ("Name: data1" +:+ nl +:+ "Plan: nfs" +:+ nl +:+
                "Pool: p1" +:+ nl +:+ "Team: t1" +:+ nl);
      EvFprint (nl +:+ "Binds:" +:+ nl);
      EvFprintTable (mkTable ["App"; "MountPoint"; "Mode"] true []);
      EvFprint (nl +:+ "Plan Opts:" +:+ nl);
      EvFprintTable (mkTable ["Key"; "Value"] true []);
      EvFprint (nl +:+ "Opts:" +:+ nl);
      EvFprintTable (mkTable ["Key"; "Value"] true [])],
     Done tt).
Proof. vm_compute. reflexivity. Qed.

(** C8 at the bound volume, with the merge-sort table library. *)
Lemma VolumeInfo_render_view_witness :
  ∃ planOptsRows optsRows : list Row,
    VolumeInfo_render (tables:=mergeSortTables) (env:=twoVolumesEnv)
                      (mkVolumeInfo false) boundVolume =
      ([EvFprint (summary boundVolume);
        EvFprint (nl +:+ "Binds:" +:+ nl);
        EvFprintTable
          (mkTable ["App"; "MountPoint"; "Mode"] true
                   (map bindRow (Volume_Binds boundVolume)));
        EvFprint (nl +:+ "Plan Opts:" +:+ nl);
        EvFprintTable (mkTable ["Key"; "Value"] true planOptsRows);
        EvFprint (nl +:+ "Opts:" +:+ nl);
        EvFprintTable (mkTable ["Key"; "Value"] true optsRows)],
       Done tt) ∧
    (∀ b, bindRow b =
          [BindID_App (Bind_ID b); BindID_MountPoint (Bind_ID b);
           if Bind_ReadOnly b then "ro" else "rw"]) ∧
    planOptsRows
      ≡ₚ map (planOptRow (env:=twoVolumesEnv))
             (Plan_Opts (Volume_Plan boundVolume)) ∧
    Sorted (key_le (tables:=mergeSortTables)) planOptsRows ∧
    optsRows ≡ₚ map optRow (Volume_Opts boundVolume) ∧
    Sorted (key_le (tables:=mergeSortTables)) optsRows ∧
    (∀ s, ascii_only s = true →
          cell_key (TableCLI:=mergeSortTables) s = ToLower_ascii s) ∧
    (Volume_Binds boundVolume = [] →
     map bindRow (Volume_Binds boundVolume) = []) ∧
    (Plan_Opts (Volume_Plan boundVolume) = [] → planOptsRows = []) ∧
    (Volume_Opts boundVolume = [] → optsRows = []).
Proof.
  exact (VolumeInfo_render_view (tables:=mergeSortTables) (env:=twoVolumesEnv)
                                (mkVolumeInfo false) boundVolume).
Defined.

(** * The rest of [volume.go] *)

(** ** [volume delete] *)

Section Delete.

Context {OptValue : Type} {env : Env OptValue}.

(** [func (c *VolumeDelete) Run(ctx, client) error]; [VolumeDelete] is
    an empty struct. *)
Definition VolumeDelete_Run (ctx : Context) : M OptValue unit :=
  match Args ctx with
  | volumeName :: _ =>
      u ← try (cmd_GetURLVersion "1.4" ("/volumes/" +:+ volumeName));
      request ← try (http_NewRequest "DELETE" u None);
      _ ← Do request;
      emit (EvFprint ("Volume successfully deleted." +:+ nl))
  | [] => panic
  end.

End Delete.

(** ** [cmd.Info]: what each command declares to the framework *)

Record Info := mkInfo {
  Info_Name : string;
  Info_Usage : string;
  Info_Desc : string;
  MinArgs : nat;
  MaxArgs : nat
}.

Definition VolumeCreate_Info : Info :=
  mkInfo "volume-create"
    "volume create <volume-name> <plan-name> [-p/--pool <pool>] [-t/--team <team>] [-o/--opt key=value]..."
    "Creates a new persistent volume based on a volume plan." 2 2.

Definition VolumeUpdate_Info : Info :=
  mkInfo "volume-update"
    "volume update <volume name> <plan-name> [-p/--pool <pool>] [-t/--team <team>] [-o/--opt key=value]..."
    "Update an existing persistent volume." 2 2.

Definition VolumeList_Info : Info :=
  mkInfo "volume-list" "volume list" "Lists existing persistent volumes." 0 0.

Definition VolumeInfo_Info : Info :=
  mkInfo "volume-info" "volume info <volume>" "Get a volume." 1 1.

Definition VolumePlansList_Info : Info :=
  mkInfo "volume-plan-list" "volume plan list" "Lists existing volume plans."
         0 0.

Definition VolumeDelete_Info : Info :=
  mkInfo "volume-delete" "volume delete <volume-name>"
         "Delete an existing persistent volume." 1 1.

Definition VolumeBind_Info : Info :=
  mkInfo "volume-bind"
    "volume bind <volume-name> <mount point> [-a/--app <appname>] [-r/--readonly] [--no-restart]"
    "Binds an existing volume to an application." 2 2.

Definition VolumeUnbind_Info : Info :=
  mkInfo "volume-unbind"
    "volume unbind <volume-name> <mount point> [-a/--app <appname>]"
    "Unbinds a volume from an application." 2 2.

(** ** [volume bind] and [volume unbind]

    These two handlers switch the context to raw output, ask the embedded
    [cmd.AppNameMixIn] for the application and stream the response to
    [ctx.Stdout]; their runs are traces of the events below. *)

(** The anonymous structs that the two handlers encode. *)
Record BindForm := mkBindForm {
  Bind_App : string;
  Bind_MountPoint : string;
  Bind_ReadOnlyFlag : bool;
  Bind_NoRestart : bool
}.

Record UnbindForm := mkUnbindForm {
  Unbind_App : string;
  Unbind_MountPoint : string;
  Unbind_NoRestart : bool
}.

Inductive bind_event :=
| BvRawOutput                        (* ctx.RawOutput() *)
| BvDo (request : Request)           (* client.Do(request) *)
| BvStreamJSONResponse (rsp : Response)
                                     (* cmd.StreamJSONResponse(ctx.Stdout, resp) *)
| BvFprint (s : string).             (* fmt.Fprint(ctx.Stdout, s) *)

Definition B (A : Type) : Type := list bind_event * outcome A.

Definition B_ret {A} (a : A) : B A := ([], Done a).

Definition B_bind {A C} (f : A → B C) (m : B A) : B C :=
  match m with
  | (tr, Done a) => let '(tr', r) := f a in (tr ++ tr', r)
  | (tr, Failed e) => (tr, Failed e)
  | (tr, Panic) => (tr, Panic)
  end.

Global Instance B_mret : MRet B := @B_ret.
Global Instance B_mbind : MBind B := @B_bind.

Definition B_emit (ev : bind_event) : B unit := ([ev], Done tt).

Definition B_try {A} (r : error + A) : B A :=
  match r with
  | inl e => ([], Failed e)
  | inr a => ([], Done a)
  end.

(** What bind and unbind need from other packages besides [Env]. *)
Class BindEnv := {
  (* the embedded cmd.AppNameMixIn with its flag values *)
  AppNameMixIn : Type;
  (* c.AppName() *)
  cmd_AppName : AppNameMixIn → error + string;
  (* form.EncodeToValues(bind), at the two struct types *)
  form_EncodeToValues_bind : BindForm → error + Values;
  form_EncodeToValues_unbind : UnbindForm → error + Values;
  (* the error, if any, of cmd.StreamJSONResponse(ctx.Stdout, resp) *)
  cmd_StreamJSONResponse_err : Response → option error
}.

Section Bind.

Context {OptValue : Type} {env : Env OptValue} {benv : BindEnv}.

(** The command struct [VolumeBind] of [volume.go] (the name without
    suffix is the bind type of the volume package). *)
Record VolumeBindCmd := mkVolumeBindCmd {
  bind_mixin : AppNameMixIn;
  bind_readOnly : bool;
  bind_noRestart : bool
}.

Record VolumeUnbindCmd := mkVolumeUnbindCmd {
  unbind_mixin : AppNameMixIn;
  unbind_noRestart : bool
}.

(** [resp, err := client.Do(request)]. *)
Definition B_Do (request : Request) : B Response :=
  B_emit (BvDo request);; B_try (client_Do request).

(** [err = cmd.StreamJSONResponse(ctx.Stdout, resp)]. *)
Definition StreamJSONResponse (rsp : Response) : B unit :=
  B_emit (BvStreamJSONResponse rsp);;
  match cmd_StreamJSONResponse_err rsp with
  | Some e => ([], Failed e)
  | None => mret tt
  end.

(** [func (c *VolumeBind) Run(ctx, client) error].  [ctx.Args[0]] is read
    before [c.AppName()] is called, [ctx.Args[1]] after it. *)
Definition VolumeBind_Run (c : VolumeBindCmd) (ctx : Context) : B unit :=
  B_emit BvRawOutput;;
  match Args ctx with
  | [] => ([], Panic)
  | volumeName :: args' =>
      appName ← B_try (cmd_AppName (bind_mixin c));
      match args' with
      | [] => ([], Panic)
      | mountPoint :: _ =>
          let bind :=
            mkBindForm appName mountPoint (bind_readOnly c) (bind_noRestart c)
          in
          val ← B_try (form_EncodeToValues_bind bind);
          let body := url_Values_Encode val in
          u ← B_try (cmd_GetURLVersion "1.4"
                       ("/volumes/" +:+ volumeName +:+ "/bind"));
          request ← B_try (http_NewRequest "POST" u (Some body));
          let request :=
            Header_Set "Content-Type" "application/x-www-form-urlencoded"
                       request in
          resp ← B_Do request;
          StreamJSONResponse resp;;
          B_emit (BvFprint ("Volume successfully bound." +:+ nl))
      end
  end.

(** [func (c *VolumeUnbind) Run(ctx, client) error]. *)
Definition VolumeUnbind_Run (c : VolumeUnbindCmd) (ctx : Context) : B unit :=
  B_emit BvRawOutput;;
  match Args ctx with
  | [] => ([], Panic)
  | volumeName :: args' =>
      appName ← B_try (cmd_AppName (unbind_mixin c));
      match args' with
      | [] => ([], Panic)
      | mountPoint :: _ =>
          let bind := mkUnbindForm appName mountPoint (unbind_noRestart c) in
          val ← B_try (form_EncodeToValues_unbind bind);
          u ← B_try (cmd_GetURLVersion "1.4"
                       ("/volumes/" +:+ volumeName +:+ "/bind?" +:+
                        url_Values_Encode val));
          request ← B_try (http_NewRequest "DELETE" u None);
          resp ← B_Do request;
          StreamJSONResponse resp;;
          B_emit (BvFprint ("Volume successfully unbound." +:+ nl))
      end
  end.

End Bind.

(** * Further properties *)

(** ** The filter as an operation on lists *)

Lemma filter_filter_comm {A} (f g : A → bool) (l : list A) :
  List.filter f (List.filter g l) = List.filter g (List.filter f l).
Proof.
  induction l as [|x l IH]; simpl; [done|].
  destruct (f x) eqn:Hf, (g x) eqn:Hg; simpl; rewrite ?Hf, ?Hg, IH; done.
Qed.

Lemma filter_filter_andb {A} (f g : A → bool) (l : list A) :
  List.filter f (List.filter g l) = List.filter (fun x => g x && f x) l.
Proof.
  induction l as [|x l IH]; simpl; [done|].
  destruct (g x) eqn:Hg; simpl; [|done].
  destruct (f x); by rewrite IH.
Qed.

(** X1: filtering is idempotent, and two filters commute: the volumes
    that pass [c1] and then [c2] are those that pass [c2] and then [c1]. *)
Theorem clientSideFilter_idempotent_comm {OptValue : Type}
  (c c1 c2 : VolumeList) (volumes : list (Volume OptValue)) :
  clientSideFilter c (clientSideFilter c volumes) = clientSideFilter c volumes ∧
  clientSideFilter c1 (clientSideFilter c2 volumes)
    = clientSideFilter c2 (clientSideFilter c1 volumes).
Proof.
  rewrite !clientSideFilter_filter. split.
  - rewrite filter_filter_andb. apply List.filter_ext.
    intros v. by destruct (clientSideFilter_insert c v).
  - apply filter_filter_comm.
Qed.

(** X2: with the four criteria empty the filter returns its input
    unchanged, whatever the output flags are. *)
Theorem clientSideFilter_no_criteria {OptValue : Type} (simplified json : bool)
  (volumes : list (Volume OptValue)) :
  clientSideFilter
    (mkVolumeList (mkVolumeFilter "" "" "" "") simplified json) volumes
  = volumes.
Proof.
  apply clientSideFilter_all, Forall_forall. intros v _.
  by repeat split.
Qed.

Lemma clientSideFilter_insert_fields {OptValue : Type} (c : VolumeList)
  (v : Volume OptValue) :
  clientSideFilter_insert c v =
    clientSideFilter_insert (byTeam (filter_teamOwner (list_filter c))) v &&
    (clientSideFilter_insert (byPlan (filter_plan (list_filter c))) v &&
     (clientSideFilter_insert (byPool (filter_pool (list_filter c))) v &&
      clientSideFilter_insert (byName (filter_name (list_filter c))) v)).
Proof.
  destruct c as [[n po pl t] si js].
  unfold clientSideFilter_insert, byTeam, byPlan, byPool, byName; simpl.
  destruct (strne n "" && negb (strings_Contains (Volume_Name v) n)),
           (strne po "" && strne (Volume_Pool v) po),
           (strne pl "" && strne (Plan_Name (Volume_Plan v)) pl),
           (strne t "" && strne (Volume_TeamOwner v) t); done.
Qed.

(** X3: a filter with several criteria is the composition of the four
    single-criterion filters: by team owner, then plan, then pool, then
    name. *)
Theorem clientSideFilter_by_field {OptValue : Type} (c : VolumeList)
  (volumes : list (Volume OptValue)) :
  clientSideFilter c volumes =
    clientSideFilter (byName (filter_name (list_filter c)))
      (clientSideFilter (byPool (filter_pool (list_filter c)))
        (clientSideFilter (byPlan (filter_plan (list_filter c)))
          (clientSideFilter (byTeam (filter_teamOwner (list_filter c)))
            volumes))).
Proof.
  rewrite !clientSideFilter_filter, !filter_filter_andb.
  apply List.filter_ext. intros v. apply clientSideFilter_insert_fields.
Qed.

(** ** The query determines the criteria *)

Lemma query_entry_inj (a b : string) : query_entry a = query_entry b → a = b.
Proof.
  unfold query_entry. repeat case_decide; congruence.
Qed.

(** X4: [queryString] loses nothing: two filters that give the same
    query values have the same four criteria. *)
Theorem queryString_inj (f1 f2 : volumeFilter) :
  queryString f1 = queryString f2 → f1 = f2.
Proof.
  intros Heq.
  destruct (queryString_lookup f1) as (qs1 & H1 & Hn1 & Hpo1 & Hpl1 & Ht1 & _).
  destruct (queryString_lookup f2) as (qs2 & H2 & Hn2 & Hpo2 & Hpl2 & Ht2 & _).
  assert (qs1 = qs2) as -> by congruence.
  destruct f1, f2; simpl in *. f_equal; apply query_entry_inj; congruence.
Qed.

Lemma queryString_inj_witness :
  queryString (mkVolumeFilter "data" "" "nfs" "")
    = queryString (mkVolumeFilter "data" "" "nfs" "") ∧
  mkVolumeFilter "data" "" "nfs" "" = mkVolumeFilter "data" "" "nfs" "".
Proof.
  split; [reflexivity|].
  apply (queryString_inj (mkVolumeFilter "data" "" "nfs" "")
                         (mkVolumeFilter "data" "" "nfs" "")).
  reflexivity.
Defined.

(** ** Stepping through a run *)

Section Steps.

Context {OptValue : Type} {tables : TableCLI} {env : Env OptValue}.

Local Abbreviation M := (M OptValue).

Lemma M_bind_try_inl {A B} (e : error) (f : A → M B) :
  (try (inl e) ≫= f) = ([], Failed e).
Proof. reflexivity. Qed.

Lemma M_bind_mret {A B} (a : A) (f : A → M B) : (mret a ≫= f) = f a.
Proof.
  unfold mret, M_mret, M_ret. rewrite M_bind_Done. by destruct (f a).
Qed.

Lemma M_bind_try {A B} (r : error + A) (f : A → M B) :
  (try r ≫= f) = match r with inl e => ([], Failed e) | inr a => f a end.
Proof. destruct r; [done | apply M_bind_try_inr]. Qed.

Lemma http_NewRequest_try {B} (method u : string) (body : option string)
  (f : Request → M B) :
  (try (http_NewRequest method u body) ≫= f) =
    match http_NewRequest_err method u with
    | Some e => ([], Failed e)
    | None => f (mkRequest method u body ∅)
    end.
Proof.
  unfold http_NewRequest. destruct (http_NewRequest_err method u); [done|].
  apply M_bind_try_inr.
Qed.

Lemma Do_bind {B} (request : Request) (f : Response → M B) :
  (Do request ≫= f) =
    match client_Do request with
    | inl e => ([EvDo request], Failed e)
    | inr rsp => (EvDo request :: (f rsp).1, (f rsp).2)
    end.
Proof.
  unfold Do. rewrite M_bind_emit.
  destruct (client_Do request) as [e|rsp]; unfold try; cbn [fst snd].
  - by rewrite M_bind_Failed.
  - by rewrite M_bind_Done.
Qed.

Lemma io_ReadAll_bind {B} (rsp : Response) (f : string → M B) :
  (io_ReadAll rsp ≫= f) =
    match RspBody rsp with
    | inl e => ([EvReadAll], Failed e)
    | inr data => (EvReadAll :: (f data).1, (f data).2)
    end.
Proof.
  unfold io_ReadAll. rewrite M_bind_emit.
  destruct (RspBody rsp) as [e|data]; unfold try; cbn [fst snd].
  - by rewrite M_bind_Failed.
  - by rewrite M_bind_Done.
Qed.

Lemma json_Unmarshal_bind {A B} (decode : string → error + A) (data : string)
  (f : A → M B) :
  (json_Unmarshal decode data ≫= f) =
    match decode data with
    | inl e => ([EvUnmarshal data], Failed e)
    | inr a => (EvUnmarshal data :: (f a).1, (f a).2)
    end.
Proof.
  unfold json_Unmarshal. rewrite M_bind_emit.
  destruct (decode data) as [e|a]; unfold try; cbn [fst snd].
  - by rewrite M_bind_Failed.
  - by rewrite M_bind_Done.
Qed.

Lemma json_Unmarshal_run {A} (decode : string → error + A) (data : string) :
  json_Unmarshal (OptValue:=OptValue) decode data =
    ([EvUnmarshal data],
     match decode data with inl e => Failed e | inr a => Done a end).
Proof.
  unfold json_Unmarshal. rewrite M_bind_emit. by destruct (decode data).
Qed.

(** The handlers, as case distinctions on what the outside world
    answers. *)
Lemma VolumeList_Run_cases (c : VolumeList) (ctx : Context) :
  ∃ qs, queryString (list_filter c) = inr qs ∧
  VolumeList_Run c ctx =
    match cmd_GetURLVersion "1.4" ("/volumes?" +:+ url_Values_Encode qs) with
    | inl e => ([], Failed e)
    | inr u =>
      match http_NewRequest_err "GET" u with
      | Some e => ([], Failed e)
      | None =>
        let request := mkRequest "GET" u None ∅ in
        match client_Do request with
        | inl e => ([EvDo request], Failed e)
        | inr rsp =>
          if Nat.eqb (StatusCode rsp) http_StatusNoContent then
            ([EvDo request; EvFprint ("No volumes available." +:+ nl)], Done tt)
          else
            match RspBody rsp with
            | inl e => ([EvDo request; EvReadAll], Failed e)
            | inr data =>
              match json_Unmarshal_volumes data with
              | inl e => ([EvDo request; EvReadAll; EvUnmarshal data], Failed e)
              | inr volumes =>
                ([EvDo request; EvReadAll; EvUnmarshal data] ++
                   (VolumeList_render c (clientSideFilter c volumes)).1,
                 (VolumeList_render c (clientSideFilter c volumes)).2)
              end
            end
        end
      end
    end.
Proof.
  destruct (queryString_lookup (list_filter c)) as (qs & Hqs & _).
  exists qs. split; [done|].
  unfold VolumeList_Run. rewrite Hqs, M_bind_try_inr, M_bind_try.
  destruct (cmd_GetURLVersion _ _) as [e|u]; [done|].
  rewrite http_NewRequest_try.
  destruct (http_NewRequest_err "GET" u); [done|].
  rewrite Do_bind. destruct (client_Do _) as [e|rsp]; [done|].
  destruct (Nat.eqb _ _); [done|].
  rewrite io_ReadAll_bind. destruct (RspBody rsp) as [e|data]; [done|].
  rewrite json_Unmarshal_bind.
  destruct (json_Unmarshal_volumes data) as [e|volumes]; done.
Qed.

Lemma VolumeInfo_Run_cases (c : VolumeInfo) (volumeName : string)
  (rest : list string) :
  VolumeInfo_Run c (mkContext (volumeName :: rest)) =
    match cmd_GetURLVersion "1.4" ("/volumes/" +:+ volumeName) with
    | inl e => ([], Failed e)
    | inr u =>
      match http_NewRequest_err "GET" u with
      | Some e => ([], Failed e)
      | None =>
        let request := mkRequest "GET" u None ∅ in
        match client_Do request with
        | inl e => ([EvDo request], Failed e)
        | inr rsp =>
          if Nat.eqb (StatusCode rsp) http_StatusNoContent then
            ([EvDo request; EvFprint ("No volumes available." +:+ nl)], Done tt)
          else
            match RspBody rsp with
            | inl e => ([EvDo request; EvReadAll], Failed e)
            | inr data =>
              match json_Unmarshal_volume data with
              | inl e => ([EvDo request; EvReadAll; EvUnmarshal data], Failed e)
              | inr volume =>
                if info_json c then
                  ([EvDo request; EvReadAll; EvUnmarshal data;
                    EvFormatterJSON (PVolume volume)],
                   match formatter_JSON_err (PVolume volume) with
                   | Some e => Failed e
                   | None => Done tt
                   end)
                else
                  ([EvDo request; EvReadAll; EvUnmarshal data] ++
                     (VolumeInfo_render c volume).1, Done tt)
              end
            end
        end
      end
    end.
Proof.
  unfold VolumeInfo_Run; cbn [Args]. rewrite M_bind_try.
  destruct (cmd_GetURLVersion _ _) as [e|u]; [done|].
  rewrite http_NewRequest_try.
  destruct (http_NewRequest_err "GET" u); [done|].
  rewrite Do_bind. destruct (client_Do _) as [e|rsp]; [done|].
  destruct (Nat.eqb _ _); [done|].
  rewrite io_ReadAll_bind. destruct (RspBody rsp) as [e|data]; [done|].
  rewrite json_Unmarshal_bind.
  destruct (json_Unmarshal_volume data) as [e|volume]; [done|].
  destruct (info_json c).
  - by rewrite formatter_JSON_run.
  - by rewrite VolumeInfo_render_run.
Qed.

Lemma VolumePlansList_Run_cases (ctx : Context) :
  VolumePlansList_Run ctx =
    match cmd_GetURLVersion "1.4" "/volumeplans" with
    | inl e => ([], Failed e)
    | inr u =>
      match http_NewRequest_err "GET" u with
      | Some e => ([], Failed e)
      | None =>
        let request := mkRequest "GET" u None ∅ in
        match client_Do request with
        | inl e => ([EvDo request], Failed e)
        | inr rsp =>
          if Nat.eqb (StatusCode rsp) http_StatusNoContent then
            (EvDo request :: (VolumePlansList_render []).1, Done tt)
          else
            match RspBody rsp with
            | inl e => ([EvDo request; EvReadAll], Failed e)
            | inr data =>
              match json_Unmarshal_plans data with
              | inl e => ([EvDo request; EvReadAll; EvUnmarshal data], Failed e)
              | inr plans =>
                ([EvDo request; EvReadAll; EvUnmarshal data] ++
                   (VolumePlansList_render plans).1, Done tt)
              end
            end
        end
      end
    end.
Proof.
  unfold VolumePlansList_Run. rewrite M_bind_try.
  destruct (cmd_GetURLVersion _ _) as [e|u]; [done|].
  rewrite http_NewRequest_try.
  destruct (http_NewRequest_err "GET" u); [done|].
  rewrite Do_bind. destruct (client_Do _) as [e|rsp]; [done|].
  destruct (Nat.eqb _ _); cbn [negb].
  - by rewrite M_bind_mret.
  - rewrite io_ReadAll_bind. destruct (RspBody rsp) as [e|data].
    + by rewrite M_bind_Failed.
    + rewrite json_Unmarshal_run.
      destruct (json_Unmarshal_plans data) as [e|plans]; cbn [fst snd].
      * by rewrite M_bind_Failed.
      * by rewrite M_bind_Done.
Qed.

End Steps.

(** ** Create, update and delete: one request, then the confirmation *)

Section Writes.

Context {OptValue : Type} {tables : TableCLI} {env : Env OptValue}.

Definition formHeader : gmap string string :=
  {["Content-Type" := "application/x-www-form-urlencoded"]}.

(** The run of a handler that posts [val] to [path] and confirms with
    [msg]. *)
Definition post_run (encoded : error + Values) (path msg : string)
  : M OptValue unit :=
  match encoded with
  | inl e => ([], Failed e)
  | inr val =>
    match cmd_GetURLVersion "1.4" path with
    | inl e => ([], Failed e)
    | inr u =>
      match http_NewRequest_err "POST" u with
      | Some e => ([], Failed e)
      | None =>
        let request :=
          mkRequest "POST" u (Some (url_Values_Encode val)) formHeader in
        match client_Do request with
        | inl e => ([EvDo request], Failed e)
        | inr _ => ([EvDo request; EvFprint msg], Done tt)
        end
      end
    end
  end.

Lemma VolumeCreate_Run_cases (c : VolumeCreate) (volumeName planName : string)
  (rest : list string) :
  VolumeCreate_Run c (mkContext (volumeName :: planName :: rest)) =
    post_run
      (form_EncodeToValues
         (described volumeName planName (create_pool c) (create_team c)
                    (create_opt c)))
      "/volumes" ("Volume successfully created." +:+ nl).
Proof.
  unfold VolumeCreate_Run, post_run, described; cbn [Args].
  rewrite M_bind_try. destruct (form_EncodeToValues _) as [e|val]; [done|].
  rewrite M_bind_try. destruct (cmd_GetURLVersion _ _) as [e|u]; [done|].
  rewrite http_NewRequest_try.
  destruct (http_NewRequest_err "POST" u); [done|].
  unfold Header_Set; cbn [Method URL Body Header].
  rewrite insert_empty, Do_bind. by destruct (client_Do _).
Qed.

Lemma VolumeUpdate_Run_cases (c : VolumeUpdate) (volumeName planName : string)
  (rest : list string) :
  VolumeUpdate_Run c (mkContext (volumeName :: planName :: rest)) =
    post_run
      (form_EncodeToValues
         (described volumeName planName (update_pool c) (update_team c)
                    (update_opt c)))
      ("/volumes/" +:+ volumeName) ("Volume successfully updated." +:+ nl).
Proof.
  unfold VolumeUpdate_Run, post_run, described; cbn [Args].
  rewrite M_bind_try. destruct (form_EncodeToValues _) as [e|val]; [done|].
  rewrite M_bind_try. destruct (cmd_GetURLVersion _ _) as [e|u]; [done|].
  rewrite http_NewRequest_try.
  destruct (http_NewRequest_err "POST" u); [done|].
  unfold Header_Set; cbn [Method URL Body Header].
  rewrite insert_empty, Do_bind. by destruct (client_Do _).
Qed.

Lemma VolumeDelete_Run_cases (volumeName : string) (rest : list string) :
  VolumeDelete_Run (mkContext (volumeName :: rest)) =
    match cmd_GetURLVersion "1.4" ("/volumes/" +:+ volumeName) with
    | inl e => ([], Failed e)
    | inr u =>
      match http_NewRequest_err "DELETE" u with
      | Some e => ([], Failed e)
      | None =>
        let request := mkRequest "DELETE" u None ∅ in
        match client_Do request with
        | inl e => ([EvDo request], Failed e)
        | inr _ =>
            ([EvDo request; EvFprint ("Volume successfully deleted." +:+ nl)],
             Done tt)
        end
      end
    end.
Proof.
  unfold VolumeDelete_Run; cbn [Args].
  rewrite M_bind_try. destruct (cmd_GetURLVersion _ _) as [e|u]; [done|].
  rewrite http_NewRequest_try.
  destruct (http_NewRequest_err "DELETE" u); [done|].
  rewrite Do_bind. by destruct (client_Do _).
Qed.

(** How a run of create, update or delete can end: with the
    confirmation [msg] printed after one request that the transport
    answered; or with the error of the transport after one request and no
    output; or with an earlier error before any request and output. *)
Definition confirmed_or_silent (msg : string) (m : M OptValue unit) : Prop :=
  match m with
  | (tr, Done _) =>
      ∃ request rsp,
        tr = [EvDo request; EvFprint msg] ∧ client_Do request = inr rsp
  | (tr, Failed e) =>
      tr = [] ∨ ∃ request, tr = [EvDo request] ∧ client_Do request = inl e
  | (tr, Panic) => tr = []
  end.

Lemma post_run_confirmed_or_silent (encoded : error + Values)
  (path msg : string) :
  confirmed_or_silent msg (post_run encoded path msg).
Proof.
  unfold post_run, confirmed_or_silent.
  destruct encoded as [e|val]; [by left|].
  destruct (cmd_GetURLVersion _ _) as [e|u]; [by left|].
  destruct (http_NewRequest_err "POST" u); [by left|].
  cbn zeta. destruct (client_Do _) as [e|rsp] eqn:Hdo; eauto.
Qed.

End Writes.

(** X5: create, update and delete print their confirmation only when
    the transport has answered their one request, and print nothing
    otherwise: an error of the transport is returned after that request, any
    earlier error (encoding, URL, request construction) before any request
    is made.  The response itself is not looked at. *)
Theorem writes_confirmed_or_silent {OptValue : Type} {tables : TableCLI}
  {env : Env OptValue} (ctx : Context) :
  (∀ c : VolumeCreate,
     confirmed_or_silent ("Volume successfully created." +:+ nl)
                         (VolumeCreate_Run c ctx)) ∧
  (∀ c : VolumeUpdate,
     confirmed_or_silent ("Volume successfully updated." +:+ nl)
                         (VolumeUpdate_Run c ctx)) ∧
  confirmed_or_silent ("Volume successfully deleted." +:+ nl)
                      (VolumeDelete_Run ctx).
Proof.
  destruct ctx as [[|volumeName [|planName rest]]].
  - by repeat split.
  - split; [done|]. split; [done|].
    rewrite VolumeDelete_Run_cases. unfold confirmed_or_silent.
    destruct (cmd_GetURLVersion _ _) as [e|u]; [by left|].
    destruct (http_NewRequest_err "DELETE" u); [by left|].
    cbn zeta. destruct (client_Do _) as [e|rsp] eqn:Hdo; eauto.
  - split; [|split].
    + intros c. rewrite VolumeCreate_Run_cases.
      apply post_run_confirmed_or_silent.
    + intros c. rewrite VolumeUpdate_Run_cases.
      apply post_run_confirmed_or_silent.
    + rewrite VolumeDelete_Run_cases. unfold confirmed_or_silent.
      destruct (cmd_GetURLVersion _ _) as [e|u]; [by left|].
      destruct (http_NewRequest_err "DELETE" u); [by left|].
      cbn zeta. destruct (client_Do _) as [e|rsp] eqn:Hdo; eauto.
Qed.

(** What the request of create or update is: a POST to the resolved
    [path] whose body is the encoding of the volume described by the
    arguments and flags, sent as a form. *)
Definition posts_volume {OptValue : Type} {env : Env OptValue}
  (vol : Volume OptValue) (path : string) (request : Request) : Prop :=
  ∃ val u,
    form_EncodeToValues vol = inr val ∧
    cmd_GetURLVersion "1.4" path = inr u ∧
    request = mkRequest "POST" u (Some (url_Values_Encode val)) formHeader.

(** X6: whatever create or update sends is a POST, with the form content
    type, of the encoding of the volume made of the two arguments and the
    pool, team and option flags as given; create posts to ["/volumes"],
    update to ["/volumes/"] followed by the volume name.  Whatever delete
    sends is a DELETE of ["/volumes/<name>"] without body or header. *)
Theorem writes_request {OptValue : Type} {tables : TableCLI}
  {env : Env OptValue} (volumeName planName : string) (rest : list string)
  (request : Request) :
  (∀ c : VolumeCreate,
     EvDo request
       ∈ (VolumeCreate_Run c (mkContext (volumeName :: planName :: rest))).1 →
     posts_volume
       (described volumeName planName (create_pool c) (create_team c)
                  (create_opt c))
       "/volumes" request) ∧
  (∀ c : VolumeUpdate,
     EvDo request
       ∈ (VolumeUpdate_Run c (mkContext (volumeName :: planName :: rest))).1 →
     posts_volume
       (described volumeName planName (update_pool c) (update_team c)
                  (update_opt c))
       ("/volumes/" +:+ volumeName) request) ∧
  (EvDo request
     ∈ (VolumeDelete_Run (OptValue:=OptValue)
          (mkContext (volumeName :: rest))).1 →
   ∃ u, cmd_GetURLVersion "1.4" ("/volumes/" +:+ volumeName) = inr u ∧
        request = mkRequest "DELETE" u None ∅).
Proof.
  assert (∀ encoded path msg,
            EvDo request ∈ (post_run encoded path msg).1 →
            ∃ val u, encoded = inr val ∧
                     cmd_GetURLVersion "1.4" path = inr u ∧
                     request = mkRequest "POST" u
                                 (Some (url_Values_Encode val)) formHeader)
    as Hpost.
  { intros encoded path msg. unfold post_run.
    destruct encoded as [e|val]; [by intros ?%elem_of_nil|].
    destruct (cmd_GetURLVersion _ _) as [e|u]; [by intros ?%elem_of_nil|].
    destruct (http_NewRequest_err "POST" u); [by intros ?%elem_of_nil|].
    cbn zeta. destruct (client_Do _) as [e|rsp]; cbn [fst];
      rewrite ?elem_of_cons, elem_of_nil;
      intros Hin; exists val, u; repeat split;
      destruct Hin as [Heq|Hin]; try (by injection Heq);
      try (destruct Hin as [Heq|[]]; discriminate Heq); done. }
  split; [|split].
  - intros c. rewrite VolumeCreate_Run_cases. apply Hpost.
  - intros c. rewrite VolumeUpdate_Run_cases. apply Hpost.
  - rewrite VolumeDelete_Run_cases.
    destruct (cmd_GetURLVersion _ _) as [e|u]; [by intros ?%elem_of_nil|].
    destruct (http_NewRequest_err "DELETE" u); [by intros ?%elem_of_nil|].
    cbn zeta. destruct (client_Do _) as [e|rsp]; cbn [fst];
      rewrite ?elem_of_cons, elem_of_nil;
      intros Hin; exists u; split; try done;
      destruct Hin as [Heq|Hin]; try (by injection Heq);
      try (destruct Hin as [Heq|[]]; discriminate Heq); done.
Qed.

(** ** Argument counts *)

(** [m] panics exactly when [len < min], and then at once. *)
Definition panics_below {OptValue A : Type} (min len : nat) (m : M OptValue A)
  : Prop :=
  (m.2 = Panic ↔ len < min) ∧ (m.2 = Panic → m.1 = []).

Ltac split_cases :=
  repeat (cbn zeta;
          match goal with
          | |- context [match ?x with _ => _ end] => destruct x
          end).

Section Panics.

Context {OptValue : Type} {tables : TableCLI} {env : Env OptValue}.

Lemma post_run_not_Panic (encoded : error + Values) (path msg : string) :
  (post_run encoded path msg).2 ≠ Panic.
Proof. unfold post_run. split_cases; done. Qed.

Lemma VolumeList_render_not_Panic (c : VolumeList)
  (volumes : list (Volume OptValue)) :
  (VolumeList_render c volumes).2 ≠ Panic.
Proof. rewrite VolumeList_render_run. split_cases; done. Qed.

Lemma VolumeList_Run_not_Panic (c : VolumeList) (ctx : Context) :
  (VolumeList_Run c ctx).2 ≠ Panic.
Proof.
  destruct (VolumeList_Run_cases c ctx) as (qs & _ & ->).
  split_cases; cbn [snd]; try done. apply VolumeList_render_not_Panic.
Qed.

Lemma VolumeInfo_Run_not_Panic (c : VolumeInfo) (volumeName : string)
  (rest : list string) :
  (VolumeInfo_Run c (mkContext (volumeName :: rest))).2 ≠ Panic.
Proof. rewrite VolumeInfo_Run_cases. split_cases; done. Qed.

Lemma VolumePlansList_Run_not_Panic (ctx : Context) :
  (VolumePlansList_Run ctx).2 ≠ Panic.
Proof. rewrite VolumePlansList_Run_cases. split_cases; done. Qed.

Lemma VolumeDelete_Run_not_Panic (volumeName : string) (rest : list string) :
  (VolumeDelete_Run (OptValue:=OptValue) (mkContext (volumeName :: rest))).2
  ≠ Panic.
Proof. rewrite VolumeDelete_Run_cases. split_cases; done. Qed.

End Panics.

(** X7: create, update, info and delete index [ctx.Args] without a check
    of their own: each of them panics exactly when it is run with fewer
    arguments than its [Info] declares as [MinArgs], and then before it has
    done anything; list and plan-list, which declare none, never panic. *)
Theorem Run_panics_iff_too_few_args {OptValue : Type} {tables : TableCLI}
  {env : Env OptValue} (ctx : Context) :
  (∀ c : VolumeCreate,
     panics_below (MinArgs VolumeCreate_Info) (length (Args ctx))
                  (VolumeCreate_Run c ctx)) ∧
  (∀ c : VolumeUpdate,
     panics_below (MinArgs VolumeUpdate_Info) (length (Args ctx))
                  (VolumeUpdate_Run c ctx)) ∧
  (∀ c : VolumeInfo,
     panics_below (MinArgs VolumeInfo_Info) (length (Args ctx))
                  (VolumeInfo_Run c ctx)) ∧
  panics_below (MinArgs VolumeDelete_Info) (length (Args ctx))
               (VolumeDelete_Run (OptValue:=OptValue) ctx) ∧
  (∀ c : VolumeList,
     panics_below (MinArgs VolumeList_Info) (length (Args ctx))
                  (VolumeList_Run c ctx)) ∧
  panics_below (MinArgs VolumePlansList_Info) (length (Args ctx))
               (VolumePlansList_Run ctx).
Proof.
  unfold panics_below.
  assert (∀ n, ¬ n < 0) as Hlt0 by lia.
  split; [|split; [|split; [|split; [|split]]]].
  - intros c. destruct ctx as [[|volumeName [|planName rest]]].
    + cbn. split; [split; [lia | done] | done].
    + cbn. split; [split; [lia | done] | done].
    + cbn [Args length MinArgs VolumeCreate_Info].
      rewrite VolumeCreate_Run_cases.
      pose proof (post_run_not_Panic
                    (form_EncodeToValues
                       (described volumeName planName (create_pool c)
                                  (create_team c) (create_opt c)))
                    "/volumes" ("Volume successfully created." +:+ nl)).
      split; [split; [done | lia] | done].
  - intros c. destruct ctx as [[|volumeName [|planName rest]]].
    + cbn. split; [split; [lia | done] | done].
    + cbn. split; [split; [lia | done] | done].
    + cbn [Args length MinArgs VolumeUpdate_Info].
      rewrite VolumeUpdate_Run_cases.
      pose proof (post_run_not_Panic
                    (form_EncodeToValues
                       (described volumeName planName (update_pool c)
                                  (update_team c) (update_opt c)))
                    ("/volumes/" +:+ volumeName)
                    ("Volume successfully updated." +:+ nl)).
      split; [split; [done | lia] | done].
  - intros c. destruct ctx as [[|volumeName rest]].
    + cbn. split; [split; [lia | done] | done].
    + pose proof (VolumeInfo_Run_not_Panic c volumeName rest).
      cbn [Args length MinArgs VolumeInfo_Info].
      split; [split; [done | lia] | done].
  - destruct ctx as [[|volumeName rest]].
    + cbn. split; [split; [lia | done] | done].
    + pose proof (VolumeDelete_Run_not_Panic volumeName rest).
      cbn [Args length MinArgs VolumeDelete_Info].
      split; [split; [done | lia] | done].
  - intros c. pose proof (VolumeList_Run_not_Panic c ctx).
    cbn [MinArgs VolumeList_Info]. split; [split; [done | lia] | done].
  - pose proof (VolumePlansList_Run_not_Panic ctx).
    cbn [MinArgs VolumePlansList_Info]. split; [split; [done | lia] | done].
Qed.

(** ** What a run prints and requests *)

(** The events that write text of this file's own to [ctx.Stdout]. *)
Definition is_print {OptValue : Type} (ev : event OptValue) : bool :=
  match ev with
  | EvFprint _ | EvFprintTable _ => true
  | _ => false
  end.

Definition is_Do {OptValue : Type} (ev : event OptValue) : bool :=
  match ev with
  | EvDo _ => true
  | _ => false
  end.

(** At most one request, made before anything else. *)
Definition request_first {OptValue : Type} (tr : list (event OptValue))
  : Prop :=
  tr = [] ∨
  ∃ request rest,
    tr = EvDo request :: rest ∧ Forall (fun ev => is_Do ev = false) rest.

(** A run that makes at most one request, first of all, and exactly one
    when it returns nil. *)
Definition one_request {OptValue : Type} (m : M OptValue unit) : Prop :=
  request_first m.1 ∧ (m.2 = Done tt → m.1 ≠ []).

(** A run that has printed nothing if it returns an error. *)
Definition silent_on_error {OptValue : Type} (m : M OptValue unit) : Prop :=
  ∀ e, m.2 = Failed e → Forall (fun ev => is_print ev = false) m.1.

Section Reads.

Context {OptValue : Type} {tables : TableCLI} {env : Env OptValue}.

Lemma names_no_Do (volumes : list (Volume OptValue)) :
  Forall (fun ev => is_Do ev = false)
         (map (fun v => EvFprint (OptValue:=OptValue) (Volume_Name v +:+ nl))
              volumes).
Proof. induction volumes; constructor; done. Qed.

Lemma VolumeList_render_no_Do (c : VolumeList)
  (volumes : list (Volume OptValue)) :
  Forall (fun ev => is_Do ev = false) (VolumeList_render c volumes).1.
Proof.
  rewrite VolumeList_render_run. split_cases; cbn [fst].
  - apply names_no_Do.
  - by repeat constructor.
  - by repeat constructor.
  - by repeat constructor.
Qed.

Lemma VolumeList_render_silent_on_error (c : VolumeList)
  (volumes : list (Volume OptValue)) :
  silent_on_error (VolumeList_render c volumes).
Proof.
  intros e. rewrite VolumeList_render_run.
  split_cases; cbn [fst snd]; try done. intros _. by repeat constructor.
Qed.

Lemma VolumeList_Run_one_request (c : VolumeList) (ctx : Context) :
  one_request (VolumeList_Run c ctx).
Proof.
  destruct (VolumeList_Run_cases c ctx) as (qs & _ & ->).
  unfold one_request, request_first.
  split_cases; cbn [fst snd app]; (split; [|done]);
    try (by left); right; eexists _, _; (split; [reflexivity|]);
    repeat (constructor; [done|]); try done.
  apply VolumeList_render_no_Do.
Qed.

Lemma VolumeList_Run_silent_on_error (c : VolumeList) (ctx : Context) :
  silent_on_error (VolumeList_Run c ctx).
Proof.
  destruct (VolumeList_Run_cases c ctx) as (qs & _ & ->).
  intros e. split_cases; cbn [fst snd app]; try done;
    try (intros _; by repeat constructor).
  intros He. repeat (constructor; [done|]).
  by apply (VolumeList_render_silent_on_error c _ e).
Qed.

Lemma VolumeInfo_Run_one_request (c : VolumeInfo) (ctx : Context) :
  one_request (VolumeInfo_Run c ctx).
Proof.
  destruct ctx as [[|volumeName rest]].
  { split; [by left | done]. }
  rewrite VolumeInfo_Run_cases. unfold one_request, request_first.
  split_cases; cbn [fst snd app]; (split; [|done]);
    try (by left); right; eexists _, _; (split; [reflexivity|]);
    repeat (constructor; [done|]); done.
Qed.

Lemma VolumeInfo_Run_silent_on_error (c : VolumeInfo) (ctx : Context) :
  silent_on_error (VolumeInfo_Run c ctx).
Proof.
  destruct ctx as [[|volumeName rest]]; [done|].
  rewrite VolumeInfo_Run_cases.
  intros e. split_cases; cbn [fst snd app]; try done;
    intros _; by repeat constructor.
Qed.

Lemma VolumePlansList_Run_one_request (ctx : Context) :
  one_request (VolumePlansList_Run ctx).
Proof.
  rewrite VolumePlansList_Run_cases. unfold one_request, request_first.
  split_cases; cbn [fst snd app]; (split; [|done]);
    try (by left); right; eexists _, _; (split; [reflexivity|]);
    repeat (constructor; [done|]); try done;
    unfold VolumePlansList_render; by repeat constructor.
Qed.

Lemma VolumePlansList_Run_silent_on_error (ctx : Context) :
  silent_on_error (VolumePlansList_Run ctx).
Proof.
  rewrite VolumePlansList_Run_cases.
  intros e. split_cases; cbn [fst snd app]; try done;
    intros _; by repeat constructor.
Qed.

End Reads.

(** X8: list, info and plan-list never leave a partial output behind an
    error: when one of them returns an error it has printed no message,
    name or table.  (The one output call a failed run can contain is the
    JSON formatter's, whose own error is the one returned.) *)
Theorem reads_silent_on_error {OptValue : Type} {tables : TableCLI}
  {env : Env OptValue} (ctx : Context) :
  (∀ c : VolumeList, silent_on_error (VolumeList_Run c ctx)) ∧
  (∀ c : VolumeInfo, silent_on_error (VolumeInfo_Run c ctx)) ∧
  silent_on_error (VolumePlansList_Run ctx).
Proof.
  split; [|split].
  - intros c. apply VolumeList_Run_silent_on_error.
  - intros c. apply VolumeInfo_Run_silent_on_error.
  - apply VolumePlansList_Run_silent_on_error.
Qed.

(** X9: list, info and plan-list make at most one request, and make it
    before they read, decode or print anything; a run that returns nil has
    made exactly one. *)
Theorem reads_one_request {OptValue : Type} {tables : TableCLI}
  {env : Env OptValue} (ctx : Context) :
  (∀ c : VolumeList, one_request (VolumeList_Run c ctx)) ∧
  (∀ c : VolumeInfo, one_request (VolumeInfo_Run c ctx)) ∧
  one_request (VolumePlansList_Run ctx).
Proof.
  split; [|split].
  - intros c. apply VolumeList_Run_one_request.
  - intros c. apply VolumeInfo_Run_one_request.
  - apply VolumePlansList_Run_one_request.
Qed.

(** ** A decodable response, end to end *)

Section Decoded.

Context {OptValue : Type} {tables : TableCLI} {env : Env OptValue}.

Lemma VolumeList_Run_on_decoded (c : VolumeList) (ctx : Context)
  (qs : Values) (request : Request) (rsp : Response) (data : string)
  (decoded : list (Volume OptValue)) :
  queryString (list_filter c) = inr qs →
  served "GET" ("/volumes?" +:+ url_Values_Encode qs) request rsp →
  StatusCode rsp ≠ 204 →
  RspBody rsp = inr data →
  json_Unmarshal_volumes data = inr decoded →
  VolumeList_Run c ctx =
    ([EvDo request; EvReadAll; EvUnmarshal data] ++
       (VolumeList_render c (clientSideFilter c decoded)).1,
     (VolumeList_render c (clientSideFilter c decoded)).2).
Proof.
  intros Hqs Hserved Hstatus Hbody Hdecode.
  rewrite (VolumeList_Run_served c ctx qs request rsp Hqs Hserved).
  rewrite M_bind_Done.
  apply Nat.eqb_neq in Hstatus. unfold http_StatusNoContent.
  rewrite Hstatus, io_ReadAll_bind, Hbody, json_Unmarshal_bind, Hdecode.
  reflexivity.
Qed.

End Decoded.

(** X10: on a response other than 204 whose body decodes, the list
    handler requests, reads and decodes once and then shows the decoded
    volumes that pass the filter: with [simplified], their names, one per
    line, in decoded order (also when [json] is set); with neither flag, one
    table with the headers Name, Plan, Pool, Team and line separators, whose
    rows are the rows of those volumes in increasing order of Name as the
    table library compares cells, that is without regard to letter case
    (for ASCII text, in the order of the names in lower case). *)
Theorem VolumeList_Run_decoded {OptValue : Type} {tables : TableCLI}
  {env : Env OptValue} (c : VolumeList) (ctx : Context) (qs : Values)
  (request : Request) (rsp : Response) (data : string)
  (decoded : list (Volume OptValue)) :
  queryString (list_filter c) = inr qs →
  served "GET" ("/volumes?" +:+ url_Values_Encode qs) request rsp →
  StatusCode rsp ≠ 204 →
  RspBody rsp = inr data →
  json_Unmarshal_volumes data = inr decoded →
  (list_simplified c = true →
   VolumeList_Run c ctx =
     ([EvDo request; EvReadAll; EvUnmarshal data] ++
        map (fun v => EvFprint (Volume_Name v +:+ nl))
            (clientSideFilter c decoded),
      Done tt)) ∧
  (list_simplified c = false → list_json c = false →
   ∃ tbl : Table,
     VolumeList_Run c ctx =
       ([EvDo request; EvReadAll; EvUnmarshal data; EvFprintTable tbl],
        Done tt) ∧
     Headers tbl = ["Name"; "Plan"; "Pool"; "Team"] ∧
     LineSeparator tbl = true ∧
     rows tbl ≡ₚ map volumeRow (clientSideFilter c decoded) ∧
     Sorted key_le (rows tbl) ∧
     (∀ s, ascii_only s = true → cell_key s = ToLower_ascii s)).
Proof.
  intros Hqs Hserved Hstatus Hbody Hdecode.
  rewrite (VolumeList_Run_on_decoded c ctx qs request rsp data decoded)
    by done.
  rewrite VolumeList_render_run. split.
  - by intros ->.
  - intros -> ->. eexists; split; [reflexivity|]. cbn.
    repeat split.
    + apply rows_Sort_Permutation.
    + eapply Sorted_iff; [apply row_le_0_iff|]. apply rows_Sort_Sorted.
    + apply cell_key_ascii.
Qed.

Lemma VolumeList_Run_decoded_witness :
  (list_simplified (byPool "p1") = true →
   VolumeList_Run (tables:=mergeSortTables) (env:=twoVolumesEnv)
                  (byPool "p1") (mkContext []) =
     ([EvDo listRequest; EvReadAll; EvUnmarshal "[two volumes]"] ++
        map (fun v => EvFprint (Volume_Name v +:+ nl))
            (clientSideFilter (byPool "p1") [data1; data2]),
      Done tt)) ∧
  (list_simplified (byPool "p1") = false → list_json (byPool "p1") = false →
   ∃ tbl : Table,
     VolumeList_Run (tables:=mergeSortTables) (env:=twoVolumesEnv)
                    (byPool "p1") (mkContext []) =
       ([EvDo listRequest; EvReadAll; EvUnmarshal "[two volumes]";
         EvFprintTable tbl], Done tt) ∧
     Headers tbl = ["Name"; "Plan"; "Pool"; "Team"] ∧
     LineSeparator tbl = true ∧
     rows tbl ≡ₚ map volumeRow (clientSideFilter (byPool "p1") [data1; data2]) ∧
     Sorted (key_le (tables:=mergeSortTables)) (rows tbl) ∧
     (∀ s, ascii_only s = true →
           cell_key (TableCLI:=mergeSortTables) s = ToLower_ascii s)).
Proof.
  apply (VolumeList_Run_decoded
           (tables:=mergeSortTables) (env:=twoVolumesEnv)
           (byPool "p1") (mkContext [])
           (Values_Set "pool" "p1" ∅) listRequest
           (mkResponse 200 (inr "[two volumes]")) "[two volumes]").
  - reflexivity.
  - exists "http://tsuru.example/1.4/volumes?pool=p1".
    split; [vm_compute; reflexivity|]. by repeat split.
  - simpl. lia.
  - reflexivity.
  - reflexivity.
Defined.

(** X11: a response other than 204 with nothing to show is not treated as
    "no content": when no decoded volume passes the filter (an empty JSON
    array, for one), the handler prints nothing at all with [simplified],
    and otherwise, without [json], the table with its headers and no row; it
    does not print the "No volumes available." message. *)
Theorem VolumeList_Run_nothing_to_show {OptValue : Type} {tables : TableCLI}
  {env : Env OptValue} (c : VolumeList) (ctx : Context) (qs : Values)
  (request : Request) (rsp : Response) (data : string)
  (decoded : list (Volume OptValue)) :
  queryString (list_filter c) = inr qs →
  served "GET" ("/volumes?" +:+ url_Values_Encode qs) request rsp →
  StatusCode rsp ≠ 204 →
  RspBody rsp = inr data →
  json_Unmarshal_volumes data = inr decoded →
  clientSideFilter c decoded = [] →
  (list_simplified c = true →
   VolumeList_Run c ctx =
     ([EvDo request; EvReadAll; EvUnmarshal data], Done tt)) ∧
  (list_simplified c = false → list_json c = false →
   VolumeList_Run c ctx =
     ([EvDo request; EvReadAll; EvUnmarshal data;
       EvFprintTable (mkTable ["Name"; "Plan"; "Pool"; "Team"] true [])],
      Done tt)) ∧
  EvFprint ("No volumes available." +:+ nl) ∉ (VolumeList_Run c ctx).1.
Proof.
  intros Hqs Hserved Hstatus Hbody Hdecode Hnone.
  rewrite (VolumeList_Run_on_decoded c ctx qs request rsp data decoded)
    by done.
  rewrite VolumeList_render_run, Hnone. cbn [map].
  pose proof (rows_Sort_Permutation []) as Hperm.
  apply Permutation_nil_r in Hperm. rewrite Hperm.
  split; [by intros ->|]. split; [by intros -> ->|].
  destruct (list_simplified c), (list_json c); cbn [fst app];
    rewrite ?elem_of_cons, elem_of_nil;
    intros Hin; repeat (destruct Hin as [Heq|Hin]; [discriminate Heq|]);
    done.
Qed.

Definition emptyArrayEnv : Env string :=
  fixedEnv (mkResponse 200 (inr "[]")) [] data1 [].

Lemma VolumeList_Run_nothing_to_show_witness :
  (list_simplified (byPool "p1") = true →
   VolumeList_Run (tables:=mergeSortTables) (env:=emptyArrayEnv)
                  (byPool "p1") (mkContext []) =
     ([EvDo listRequest; EvReadAll; EvUnmarshal "[]"], Done tt)) ∧
  (list_simplified (byPool "p1") = false → list_json (byPool "p1") = false →
   VolumeList_Run (tables:=mergeSortTables) (env:=emptyArrayEnv)
                  (byPool "p1") (mkContext []) =
     ([EvDo listRequest; EvReadAll; EvUnmarshal "[]";
       EvFprintTable (mkTable ["Name"; "Plan"; "Pool"; "Team"] true [])],
      Done tt)) ∧
  EvFprint ("No volumes available." +:+ nl)
    ∉ (VolumeList_Run (tables:=mergeSortTables) (env:=emptyArrayEnv)
                      (byPool "p1") (mkContext [])).1.
Proof.
  apply (VolumeList_Run_nothing_to_show
           (tables:=mergeSortTables) (env:=emptyArrayEnv)
           (byPool "p1") (mkContext [])
           (Values_Set "pool" "p1" ∅) listRequest
           (mkResponse 200 (inr "[]")) "[]" []).
  - reflexivity.
  - exists "http://tsuru.example/1.4/volumes?pool=p1".
    split; [vm_compute; reflexivity|]. by repeat split.
  - simpl. lia.
  - reflexivity.
  - reflexivity.
  - reflexivity.
Defined.

(** X12: on a response other than 204 whose body decodes, the info
    handler shows the decoded volume as it is: with [json], the run ends
    with one call of the JSON formatter on that volume, whose error, if any,
    is the result; without, with the info view of that volume and nil. *)
Theorem VolumeInfo_Run_decoded {OptValue : Type} {tables : TableCLI}
  {env : Env OptValue} (c : VolumeInfo) (volumeName : string)
  (rest : list string) (request : Request) (rsp : Response) (data : string)
  (volume : Volume OptValue) :
  served "GET" ("/volumes/" +:+ volumeName) request rsp →
  StatusCode rsp ≠ 204 →
  RspBody rsp = inr data →
  json_Unmarshal_volume data = inr volume →
  VolumeInfo_Run c (mkContext (volumeName :: rest)) =
    if info_json c then
      ([EvDo request; EvReadAll; EvUnmarshal data;
        EvFormatterJSON (PVolume volume)],
       match formatter_JSON_err (PVolume volume) with
       | Some e => Failed e
       | None => Done tt
       end)
    else
      ([EvDo request; EvReadAll; EvUnmarshal data] ++
         (VolumeInfo_render c volume).1, Done tt).
Proof.
  intros (u & Hu & Hreq & -> & Hdo) Hstatus Hbody Hdecode.
  rewrite VolumeInfo_Run_cases, Hu, Hreq. cbn zeta. rewrite Hdo.
  apply Nat.eqb_neq in Hstatus. unfold http_StatusNoContent.
  by rewrite Hstatus, Hbody, Hdecode.
Qed.

Lemma VolumeInfo_Run_decoded_witness :
  VolumeInfo_Run (tables:=mergeSortTables) (env:=twoVolumesEnv)
                 (mkVolumeInfo true) (mkContext ["data1"]) =
    ([EvDo (getRequest "/volumes/data1"); EvReadAll;
      EvUnmarshal "[two volumes]"; EvFormatterJSON (PVolume data1)],
     Done tt).
Proof.
  apply (VolumeInfo_Run_decoded
           (tables:=mergeSortTables) (env:=twoVolumesEnv)
           (mkVolumeInfo true) "data1" [] (getRequest "/volumes/data1")
           (mkResponse 200 (inr "[two volumes]")) "[two volumes]" data1).
  - apply fixedEnv_served.
  - simpl. lia.
  - reflexivity.
  - reflexivity.
Defined.




(** ** The shape of the printed tables *)

(** Every row has one cell per header. *)
Definition rectangular (t : Table) : Prop :=
  Forall (fun r : Row => length r = length (Headers t)) (rows t).

Lemma Forall_map_const {A} (f : A → Row) (n : nat) (l : list A) :
  (∀ a, length (f a) = n) → Forall (fun r : Row => length r = n) (map f l).
Proof. intros Hf. induction l; constructor; auto. Qed.

(** X14: every table that the list, info and plan-list renderers print is
    rectangular: each of its rows has as many cells as the table has
    headers (4 for volumes, 3 for binds and plans, 2 for options). *)
Theorem printed_tables_rectangular {OptValue : Type} {tables : TableCLI}
  {env : Env OptValue} (t : Table) :
  (∀ (c : VolumeList) (volumes : list (Volume OptValue)),
     EvFprintTable t ∈ (VolumeList_render c volumes).1 → rectangular t) ∧
  (∀ (c : VolumeInfo) (volume : Volume OptValue),
     EvFprintTable t ∈ (VolumeInfo_render c volume).1 → rectangular t) ∧
  (∀ plans : list (string * list (VolumePlan OptValue)),
     EvFprintTable t ∈ (VolumePlansList_render plans).1 → rectangular t).
Proof.
  unfold rectangular. split; [|split].
  - intros c volumes. rewrite VolumeList_render_run.
    destruct (list_simplified c); [|destruct (list_json c)]; cbn [fst].
    + intros (v & Heq & _)%list_elem_of_In%in_map_iff. discriminate Heq.
    + rewrite list_elem_of_singleton. discriminate.
    + rewrite list_elem_of_singleton. intros [= ->]. cbn.
      rewrite rows_Sort_Permutation. by apply Forall_map_const.
  - intros c volume. rewrite VolumeInfo_render_run. cbn [fst].
    rewrite !elem_of_cons, elem_of_nil.
    intros [Heq|[Heq|[Heq|[Heq|[Heq|[Heq|[Heq|[]]]]]]]];
      try discriminate Heq; injection Heq as ->; cbn.
    + apply Forall_map_const. by intros b.
    + rewrite rows_Sort_Permutation. by apply Forall_map_const.
    + rewrite rows_Sort_Permutation. by apply Forall_map_const.
  - intros plans. unfold VolumePlansList_render.
    rewrite plans_fold_rows. cbn.
    rewrite list_elem_of_singleton. intros [= ->]. cbn.
    rewrite rows_SortByColumn_Permutation.
    unfold planRows. apply Forall_forall. intros r Hr.
    apply list_elem_of_In, in_flat_map in Hr.
    destruct Hr as ([provisioner provPlans] & _ & Hr).
    apply in_map_iff in Hr. by destruct Hr as (p & <- & _).
Qed.

(** ** Output that does not depend on map order or on the sort used *)

Lemma string_compare_Eq_iff (a b : string) : String.compare a b = Eq ↔ a = b.
Proof.
  split; [apply String.compare_eq_iff|]. intros ->. apply string_compare_refl.
Qed.

Lemma row_compare_Eq (key : string → string) (columns : list nat)
  (r1 r2 : Row) :
  row_compare key columns r1 r2 = Eq
  ↔ Forall (fun c => key (col c r1) = key (col c r2)) columns.
Proof.
  induction columns as [|c columns IH]; simpl.
  - split; [constructor | done].
  - rewrite Forall_cons, <- IH, <- string_compare_Eq_iff.
    destruct (String.compare (key (col c r1)) (key (col c r2)));
      split; try done; by intros [? ?].
Qed.

Global Instance row_le_trans (key : string → string) (columns : list nat) :
  Transitive (row_le key columns).
Proof.
  unfold row_le. intros r1 r2 r3.
  induction columns as [|c columns IH]; simpl; [done|].
  destruct (String.compare (key (col c r1)) (key (col c r2))) eqn:H12;
    destruct (String.compare (key (col c r2)) (key (col c r3))) eqn:H23;
    try done.
  - apply string_compare_Eq_iff in H12, H23.
    rewrite H12, H23, string_compare_refl. apply IH.
  - apply string_compare_Eq_iff in H12. by rewrite H12, H23.
  - apply string_compare_Eq_iff in H23. by rewrite <- H23, H12.
  - by rewrite (string_compare_Lt_trans _ _ _ H12 H23).
Qed.

(** Rows that the comparison tells apart have only one sorted
    arrangement. *)
Lemma sorted_rows_unique (key : string → string) (columns : list nat)
  (l1 l2 : list Row) :
  (∀ r1 r2, r1 ∈ l1 → r2 ∈ l1 →
            Forall (fun c => key (col c r1) = key (col c r2)) columns →
            r1 = r2) →
  Sorted (row_le key columns) l1 → Sorted (row_le key columns) l2 →
  l1 ≡ₚ l2 → l1 = l2.
Proof.
  intros Hkey Hs1 Hs2 Hperm.
  apply (Sorted_unique_strong (row_le key columns)); try done.
  intros r1 r2 Hr1 Hr2 H12 H21. apply Hkey; [done | by rewrite Hperm |].
  apply row_compare_Eq. unfold row_le in *.
  rewrite (row_compare_antisym key columns r1 r2) in H21.
  by destruct (row_compare key columns r1 r2).
Qed.

(** Two libraries that compare cells in the same form give the same
    sorted rows when the comparison tells all rows apart. *)
Lemma sorted_rows_agree (tables1 tables2 : TableCLI) (columns : list nat)
  (l1 l2 : list Row) :
  (∀ s, cell_key (TableCLI:=tables1) s = cell_key (TableCLI:=tables2) s) →
  (∀ r1 r2, r1 ∈ l1 → r2 ∈ l1 →
            Forall (fun c => cell_key (TableCLI:=tables1) (col c r1)
                             = cell_key (TableCLI:=tables1) (col c r2))
                   columns →
            r1 = r2) →
  Sorted (row_le (cell_key (TableCLI:=tables1)) columns) l1 →
  Sorted (row_le (cell_key (TableCLI:=tables2)) columns) l2 →
  l1 ≡ₚ l2 → l1 = l2.
Proof.
  intros Hsame Hkey Hs1 Hs2 Hperm.
  apply (sorted_rows_unique (cell_key (TableCLI:=tables1)) columns);
    try done.
  eapply Sorted_iff; [|exact Hs2].
  intros r1 r2. unfold row_le.
  assert (row_compare (cell_key (TableCLI:=tables2)) columns r1 r2
          = row_compare (cell_key (TableCLI:=tables1)) columns r1 r2) as ->;
    [|done].
  clear -Hsame. induction columns as [|c columns IH]; simpl; [done|].
  by rewrite IH, !Hsame.
Qed.

Lemma NoDup_map_eq {A B} (f : A → B) (l : list A) (x y : A) :
  NoDup (map f l) → x ∈ l → y ∈ l → f x = f y → x = y.
Proof.
  induction l as [|z l IH]; simpl; [by intros _ ?%elem_of_nil|].
  rewrite NoDup_cons, !elem_of_cons. intros [Hz Hl] [->|Hx] [->|Hy] Heq.
  - done.
  - exfalso. apply Hz. rewrite Heq.
    apply list_elem_of_In, in_map, list_elem_of_In, Hy.
  - exfalso. apply Hz. rewrite <- Heq.
    apply list_elem_of_In, in_map, list_elem_of_In, Hx.
  - by apply IH.
Qed.

Section Deterministic.

Context {OptValue : Type} {env : Env OptValue}.

(** Two plans that differ at most in the order of their options. *)
Definition plan_alike (p p' : VolumePlan OptValue) : Prop :=
  Plan_Name p = Plan_Name p' ∧ Plan_Opts p ≡ₚ Plan_Opts p'.

Definition entry_alike (e e' : string * list (VolumePlan OptValue)) : Prop :=
  e.1 = e'.1 ∧ Forall2 plan_alike e.2 e'.2.

(** Two traversals of one plans map: the provisioners in any two orders,
    the plans of a provisioner in their one order, the options of a plan
    in any two orders. *)
Definition same_plans_map
  (plans plans' : list (string * list (VolumePlan OptValue))) : Prop :=
  ∃ mid, plans ≡ₚ mid ∧ Forall2 entry_alike mid plans'.

Lemma planRows_alike (mid plans' : list (string * list (VolumePlan OptValue))) :
  Forall2 entry_alike mid plans' → planRows mid = planRows plans'.
Proof.
  induction 1 as [|[prov ps] [prov' ps'] mid plans' [Hprov Hps] _ IH];
    simpl; [done|].
  simpl in Hprov, Hps. subst prov'. rewrite IH. f_equal.
  induction Hps as [|p p' ps ps' [Hname Hopts] _ IHps]; simpl; [done|].
  by rewrite IHps, Hname, (planOptsCell_order p p' Hopts).
Qed.

Lemma planRows_same_map (plans plans' : list (string * list (VolumePlan OptValue))) :
  same_plans_map plans plans' → planRows plans ≡ₚ planRows plans'.
Proof.
  intros (mid & Hperm & Halike).
  rewrite <- (planRows_alike mid plans' Halike).
  unfold planRows. by apply Permutation_flat_map.
Qed.

(** Two volumes that differ at most in the order of their option maps. *)
Definition volume_alike (v v' : Volume OptValue) : Prop :=
  Volume_Name v = Volume_Name v' ∧
  Volume_Pool v = Volume_Pool v' ∧
  Volume_TeamOwner v = Volume_TeamOwner v' ∧
  Volume_Binds v = Volume_Binds v' ∧
  Plan_Name (Volume_Plan v) = Plan_Name (Volume_Plan v') ∧
  Plan_Opts (Volume_Plan v) ≡ₚ Plan_Opts (Volume_Plan v') ∧
  Volume_Opts v ≡ₚ Volume_Opts v'.

End Deterministic.

(** Two table libraries that compare cells in the same form. *)
Definition same_cell_key (tables1 tables2 : TableCLI) : Prop :=
  ∀ s, cell_key (TableCLI:=tables1) s = cell_key (TableCLI:=tables2) s.

(** X15: the table of plan-list is the same for every order in which Go
    ranges over the plans map and over the option maps, and for every table
    library that meets the sorting contract, provided no two plan names
    and no two provisioners differ in letter case only, and no two rows
    have the same Plan and the same Provisioner up to letter case (in the
    form in which the library compares them). *)
Theorem VolumePlansList_render_deterministic {OptValue : Type}
  {env : Env OptValue} (tables1 tables2 : TableCLI)
  (plans plans' : list (string * list (VolumePlan OptValue))) :
  same_cell_key tables1 tables2 →
  same_plans_map plans plans' →
  one_letter_case (cell_key (TableCLI:=tables1)) [0; 1] (planRows plans) →
  (∀ r1 r2, r1 ∈ planRows plans → r2 ∈ planRows plans →
            cell_key (TableCLI:=tables1) (col 0 r1)
              = cell_key (TableCLI:=tables1) (col 0 r2) →
            cell_key (TableCLI:=tables1) (col 1 r1)
              = cell_key (TableCLI:=tables1) (col 1 r2) →
            r1 = r2) →
  VolumePlansList_render (tables:=tables1) plans
  = VolumePlansList_render (tables:=tables2) plans'.
Proof.
  intros Hsame Hmap Hcase Hkey. unfold VolumePlansList_render.
  rewrite !plans_fold_rows. cbn -[planRows].
  unfold Table_SortByColumn; cbn [Headers LineSeparator rows].
  assert (rows_SortByColumn (TableCLI:=tables1) [0; 1] (planRows plans)
          = rows_SortByColumn (TableCLI:=tables2) [0; 1] (planRows plans'))
    as ->; [|done].
  apply (sorted_rows_agree tables1 tables2 [0; 1]); try done.
  - intros r1 r2 Hr1 Hr2 Hcols.
    rewrite rows_SortByColumn_Permutation in Hr1, Hr2.
    apply Hkey; try done.
    + by apply Forall_cons in Hcols as [? _].
    + by apply Forall_cons in Hcols as [_ [? _]%Forall_cons].
  - by apply rows_SortByColumn_Sorted.
  - apply rows_SortByColumn_Sorted.
    intros c r1 r2 Hc Hr1 Hr2. rewrite <- !Hsame.
    rewrite <- (planRows_same_map plans plans' Hmap) in Hr1, Hr2.
    by apply Hcase.
  - rewrite !rows_SortByColumn_Permutation. by apply planRows_same_map.
Qed.

(** X16: the info view is the same for every order in which Go ranges
    over the two option maps of the volume, and for every table library that
    meets the sorting contract, provided the keys of each map are distinct
    up to letter case (in the form in which the library compares them). *)
Theorem VolumeInfo_render_deterministic {OptValue : Type}
  {env : Env OptValue} (tables1 tables2 : TableCLI) (c c' : VolumeInfo)
  (v v' : Volume OptValue) :
  same_cell_key tables1 tables2 →
  volume_alike v v' →
  NoDup (map (fun kv => cell_key (TableCLI:=tables1) kv.1)
             (Plan_Opts (Volume_Plan v))) →
  NoDup (map (fun kv => cell_key (TableCLI:=tables1) kv.1) (Volume_Opts v)) →
  VolumeInfo_render (tables:=tables1) c v
  = VolumeInfo_render (tables:=tables2) c' v'.
Proof.
  intros Hsame (Hname & Hpool & Hteam & Hbinds & Hplan & Hpopts & Hopts)
         Hnd1 Hnd2.
  rewrite !VolumeInfo_render_run. unfold summary.
  rewrite Hname, Hpool, Hteam, Hbinds, Hplan.
  assert (rows_Sort (TableCLI:=tables1)
            (map planOptRow (Plan_Opts (Volume_Plan v)))
          = rows_Sort (TableCLI:=tables2)
              (map planOptRow (Plan_Opts (Volume_Plan v')))) as ->.
  { apply (sorted_rows_agree tables1 tables2 [0]);
      try apply rows_Sort_Sorted; try done.
    - intros r1 r2 Hr1 Hr2 [Hcol _]%Forall_cons.
      rewrite rows_Sort_Permutation in Hr1, Hr2.
      apply list_elem_of_In, in_map_iff in Hr1 as (kv1 & <- & Hkv1).
      apply list_elem_of_In, in_map_iff in Hr2 as (kv2 & <- & Hkv2).
      f_equal.
      apply (NoDup_map_eq (fun kv => cell_key (TableCLI:=tables1) kv.1)
                          (Plan_Opts (Volume_Plan v)));
        try done; by apply list_elem_of_In.
    - rewrite !rows_Sort_Permutation. by apply Permutation_map. }
  assert (rows_Sort (TableCLI:=tables1) (map optRow (Volume_Opts v))
          = rows_Sort (TableCLI:=tables2) (map optRow (Volume_Opts v')))
    as ->; [|done].
  apply (sorted_rows_agree tables1 tables2 [0]);
    try apply rows_Sort_Sorted; try done.
  - intros r1 r2 Hr1 Hr2 [Hcol _]%Forall_cons.
    rewrite rows_Sort_Permutation in Hr1, Hr2.
    apply list_elem_of_In, in_map_iff in Hr1 as (kv1 & <- & Hkv1).
    apply list_elem_of_In, in_map_iff in Hr2 as (kv2 & <- & Hkv2).
    f_equal.
    apply (NoDup_map_eq (fun kv => cell_key (TableCLI:=tables1) kv.1)
                        (Volume_Opts v));
      try done; by apply list_elem_of_In.
  - rewrite !rows_Sort_Permutation. by apply Permutation_map.
Qed.

(** X17: the table of the list command is the same for every order in
    which the volumes arrive and for every table library that meets the
    sorting contract, provided the volumes have names that are distinct up
    to letter case (in the form in which the library compares them). *)
Theorem VolumeList_render_table_deterministic {OptValue : Type}
  {env : Env OptValue} (tables1 tables2 : TableCLI) (c : VolumeList)
  (volumes volumes' : list (Volume OptValue)) :
  same_cell_key tables1 tables2 →
  volumes ≡ₚ volumes' →
  NoDup (map (fun v => cell_key (TableCLI:=tables1) (Volume_Name v))
             volumes) →
  list_simplified c = false →
  list_json c = false →
  VolumeList_render (tables:=tables1) c volumes
  = VolumeList_render (tables:=tables2) c volumes'.
Proof.
  intros Hsame Hperm Hnd Hs Hj. rewrite !VolumeList_render_run, Hs, Hj.
  assert (rows_Sort (TableCLI:=tables1) (map volumeRow volumes)
          = rows_Sort (TableCLI:=tables2) (map volumeRow volumes'))
    as ->; [|done].
  apply (sorted_rows_agree tables1 tables2 [0]);
    try apply rows_Sort_Sorted; try done.
  - intros r1 r2 Hr1 Hr2 [Hcol _]%Forall_cons.
    rewrite rows_Sort_Permutation in Hr1, Hr2.
    apply list_elem_of_In, in_map_iff in Hr1 as (v1 & <- & Hv1).
    apply list_elem_of_In, in_map_iff in Hr2 as (v2 & <- & Hv2).
    f_equal.
    apply (NoDup_map_eq
             (fun v => cell_key (TableCLI:=tables1) (Volume_Name v)) volumes);
      try done; by apply list_elem_of_In.
  - rewrite !rows_Sort_Permutation. by apply Permutation_map.
Qed.

(** Two traversals of one plans map. *)
Definition plansOneOrder : list (string * list (VolumePlan string)) :=
  [("swarm", [mkVolumePlan "nfs" []]);
   ("docker", [mkVolumePlan "nfs" [("size", "10"); ("access", "rw")]])].

Definition plansOtherOrder : list (string * list (VolumePlan string)) :=
  [("docker", [mkVolumePlan "nfs" [("access", "rw"); ("size", "10")]]);
   ("swarm", [mkVolumePlan "nfs" []])].

Lemma VolumePlansList_render_deterministic_witness :
  VolumePlansList_render (tables:=mergeSortTables) (env:=twoVolumesEnv)
                         plansOneOrder
  = VolumePlansList_render (tables:=mergeSortTables) (env:=twoVolumesEnv)
                           plansOtherOrder.
Proof.
  apply (VolumePlansList_render_deterministic
           (env:=twoVolumesEnv) mergeSortTables mergeSortTables
           plansOneOrder plansOtherOrder).
  - by intros s.
  - exists [("docker", [mkVolumePlan "nfs" [("size", "10"); ("access", "rw")]]);
            ("swarm", [mkVolumePlan "nfs" []])].
    split; [apply perm_swap|].
    repeat constructor.
  - one_letter_case_by_cases.
  - assert (planRows (env:=twoVolumesEnv) plansOneOrder
            = [["nfs"; "swarm"; ""];
               ["nfs"; "docker"; "access: rw" +:+ nl +:+ "size: 10"]]) as ->
      by (vm_compute; reflexivity).
    intros r1 r2 Hr1 Hr2 H0 H1.
    rewrite !elem_of_cons, elem_of_nil in Hr1, Hr2.
    destruct Hr1 as [->|[->|[]]], Hr2 as [->|[->|[]]];
      try done; vm_compute in H1; discriminate H1.
Defined.

Definition boundVolumeOtherOrder : Volume string :=
  mkVolume "data1" "p1"
    (mkVolumePlan "nfs" [("access", "rw"); ("size", "10")]) "t1"
    [mkVolumeBind (mkVolumeBindID "web" "/mnt/a") true;
     mkVolumeBind (mkVolumeBindID "api" "/mnt/b") false]
    [("backup", "daily"); ("zone", "z1")].

Lemma VolumeInfo_render_deterministic_witness :
  VolumeInfo_render (tables:=mergeSortTables) (env:=twoVolumesEnv)
                    (mkVolumeInfo false) boundVolume
  = VolumeInfo_render (tables:=mergeSortTables) (env:=twoVolumesEnv)
                      (mkVolumeInfo false) boundVolumeOtherOrder.
Proof.
  apply (VolumeInfo_render_deterministic
           (env:=twoVolumesEnv) mergeSortTables mergeSortTables
           (mkVolumeInfo false) (mkVolumeInfo false)
           boundVolume boundVolumeOtherOrder).
  - by intros s.
  - repeat split; apply perm_swap.
  - compute_done.
  - compute_done.
Defined.

Lemma VolumeList_render_table_deterministic_witness :
  VolumeList_render (tables:=mergeSortTables) (env:=twoVolumesEnv)
                    (byPool "") [data2; data1]
  = VolumeList_render (tables:=mergeSortTables) (env:=twoVolumesEnv)
                      (byPool "") [data1; data2].
Proof.
  apply (VolumeList_render_table_deterministic
           (env:=twoVolumesEnv) mergeSortTables mergeSortTables
           (byPool "") [data2; data1] [data1; data2]).
  - by intros s.
  - apply perm_swap.
  - compute_done.
  - reflexivity.
  - reflexivity.
Defined.

(** ** Letter case in the order of the rows *)

(** On ASCII cells every table library compares as lower case does. *)
Lemma row_compare_ascii {tables : TableCLI} (columns : list nat)
  (r1 r2 : Row) :
  Forall (fun c => ascii_only (col c r1) = true ∧
                   ascii_only (col c r2) = true) columns →
  row_compare cell_key columns r1 r2
  = row_compare ToLower_ascii columns r1 r2.
Proof.
  induction 1 as [|c columns [H1 H2] _ IH]; simpl; [done|].
  by rewrite IH, !cell_key_ascii.
Qed.

(** Two rows of ASCII cells that lower case puts in the order [r1], [r2]
    are sorted into that order by every table library. *)
Lemma sorted_two_rows {tables : TableCLI} (columns : list nat)
  (r1 r2 : Row) (l : list Row) :
  Forall (fun c => ascii_only (col c r1) = true ∧
                   ascii_only (col c r2) = true) columns →
  row_compare ToLower_ascii columns r1 r2 = Lt →
  Sorted (row_le cell_key columns) l →
  l ≡ₚ [r2; r1] →
  l = [r1; r2].
Proof.
  intros Hascii Hlt Hsorted Hperm.
  assert (row_compare cell_key columns r1 r2 = Lt) as Hlt'
    by (by rewrite row_compare_ascii).
  apply (sorted_rows_unique cell_key columns); try done.
  - intros x y Hx Hy Hcols. apply row_compare_Eq in Hcols.
    rewrite Hperm in Hx, Hy.
    rewrite !elem_of_cons, elem_of_nil in Hx, Hy.
    destruct Hx as [->|[->|[]]], Hy as [->|[->|[]]]; try done.
    + rewrite row_compare_antisym, Hlt' in Hcols. discriminate Hcols.
    + rewrite Hlt' in Hcols. discriminate Hcols.
  - repeat constructor. unfold row_le. by rewrite Hlt'.
  - rewrite Hperm. apply perm_swap.
Qed.

(** The merge-sort table library on cells of mixed letter case. *)
Example sort_mixed_case :
  rows_Sort (TableCLI:=mergeSortTables) [["C"; "3"]; ["a"; "1"]; ["b"; "2"]]
    = [["a"; "1"]; ["b"; "2"]; ["C"; "3"]] ∧
  rows_Sort (TableCLI:=mergeSortTables) [["Beta"]; ["alpha"]]
    = [["alpha"]; ["Beta"]] ∧
  rows_SortByColumn (TableCLI:=mergeSortTables) [0; 1]
                    [["nfs"; "swarm"]; ["Zfs"; "docker"]; ["nfs"; "docker"]]
    = [["nfs"; "docker"]; ["nfs"; "swarm"]; ["Zfs"; "docker"]].
Proof. vm_compute. by repeat split. Qed.


Definition mixedCaseVolume : Volume string :=
  mkVolume "data1" "p1" (mkVolumePlan "nfs" []) "t1" []
           [("Zone", "z1"); ("backup", "daily")].


(** C8, as stated, fails when "sorted by Key" is read in Go's string
    order: for the options Zone and backup, every table library prints the
    row of backup before the row of Zone in the Opts table, while Zone comes
    before backup in string order. *)
Lemma VolumeInfo_opts_not_in_string_order :
  (∀ tables : TableCLI,
     VolumeInfo_render (tables:=tables) (env:=twoVolumesEnv)
                       (mkVolumeInfo false) mixedCaseVolume
     = ([EvFprint (summary mixedCaseVolume);
         EvFprint (nl +:+ "Binds:" +:+ nl);
         EvFprintTable (mkTable ["App"; "MountPoint"; "Mode"] true []);
         EvFprint (nl +:+ "Plan Opts:" +:+ nl);
         EvFprintTable (mkTable ["Key"; "Value"] true []);
         EvFprint (nl +:+ "Opts:" +:+ nl);
         EvFprintTable
           (mkTable ["Key"; "Value"] true
                    [["backup"; "daily"]; ["Zone"; "z1"]])],
        Done tt)) ∧
  ¬ Sorted bytes_key_le [["backup"; "daily"]; ["Zone"; "z1"]].
Proof.
  split.
  - intros tables. rewrite VolumeInfo_render_run.
    cbn [mixedCaseVolume Volume_Binds Volume_Plan Plan_Opts Volume_Opts map
         planOptRow optRow fst snd].
    pose proof (rows_Sort_Permutation []) as Hnil.
    apply Permutation_nil_r in Hnil. rewrite Hnil.
    rewrite (sorted_two_rows [0] ["backup"; "daily"] ["Zone"; "z1"]
               (rows_Sort [["Zone"; "z1"]; ["backup"; "daily"]])).
    + reflexivity.
    + by repeat constructor.
    + vm_compute. reflexivity.
    + apply rows_Sort_Sorted.
    + apply rows_Sort_Permutation.
  - intros Hsorted. inversion Hsorted as [|? ? _ Hhd]; subst.
    inversion Hhd as [|? ? Hle]; subst.
    vm_compute in Hle. discriminate Hle.
Qed.

(** ** Bind and unbind *)

Section BindRuns.

Context {OptValue : Type} {env : Env OptValue} {benv : BindEnv}.

Lemma B_bind_Done {A C} (tr : list bind_event) (a : A) (f : A → B C) :
  ((tr, Done a) ≫= f) = (tr ++ (f a).1, (f a).2).
Proof. unfold mbind, B_mbind, B_bind. by destruct (f a). Qed.

Lemma B_bind_emit {C} (ev : bind_event) (f : unit → B C) :
  (B_emit ev ≫= f) = (ev :: (f tt).1, (f tt).2).
Proof. unfold B_emit. by rewrite B_bind_Done. Qed.

Lemma B_bind_try {A C} (r : error + A) (f : A → B C) :
  (B_try r ≫= f) = match r with inl e => ([], Failed e) | inr a => f a end.
Proof.
  destruct r as [e|a]; [done|]. unfold B_try. rewrite B_bind_Done.
  by destruct (f a).
Qed.

Lemma B_NewRequest_try {C} (method u : string) (body : option string)
  (f : Request → B C) :
  (B_try (http_NewRequest method u body) ≫= f) =
    match http_NewRequest_err method u with
    | Some e => ([], Failed e)
    | None => f (mkRequest method u body ∅)
    end.
Proof.
  rewrite B_bind_try. unfold http_NewRequest.
  by destruct (http_NewRequest_err method u).
Qed.

(** What follows a request: the response is streamed, then [msg] is
    printed. *)
Definition stream_and_confirm (request : Request) (msg : string) : B unit :=
  match client_Do request with
  | inl e => ([BvDo request], Failed e)
  | inr rsp =>
    match cmd_StreamJSONResponse_err rsp with
    | Some e => ([BvDo request; BvStreamJSONResponse rsp], Failed e)
    | None =>
        ([BvDo request; BvStreamJSONResponse rsp; BvFprint msg], Done tt)
    end
  end.

Lemma B_Do_stream (request : Request) (msg : string) :
  (resp ← B_Do request; StreamJSONResponse resp;; B_emit (BvFprint msg))
  = stream_and_confirm request msg.
Proof.
  unfold B_Do, stream_and_confirm. rewrite B_bind_emit.
  destruct (client_Do request) as [e|rsp]; unfold B_try; cbn [fst snd].
  - reflexivity.
  - rewrite B_bind_Done. unfold StreamJSONResponse.
    rewrite !B_bind_emit.
    destruct (cmd_StreamJSONResponse_err rsp); reflexivity.
Qed.

(** [m], run after the switch to raw output. *)
Definition after_RawOutput {A} (m : B A) : B A := (BvRawOutput :: m.1, m.2).

Lemma VolumeBind_Run_cases (c : VolumeBindCmd) (volumeName mountPoint : string)
  (rest : list string) :
  VolumeBind_Run c (mkContext (volumeName :: mountPoint :: rest)) =
    after_RawOutput
      match cmd_AppName (bind_mixin c) with
      | inl e => ([], Failed e)
      | inr appName =>
        match form_EncodeToValues_bind
                (mkBindForm appName mountPoint (bind_readOnly c)
                            (bind_noRestart c)) with
        | inl e => ([], Failed e)
        | inr val =>
          match cmd_GetURLVersion "1.4"
                  ("/volumes/" +:+ volumeName +:+ "/bind") with
          | inl e => ([], Failed e)
          | inr u =>
            match http_NewRequest_err "POST" u with
            | Some e => ([], Failed e)
            | None =>
                stream_and_confirm
                  (mkRequest "POST" u (Some (url_Values_Encode val))
                             formHeader)
                  ("Volume successfully bound." +:+ nl)
            end
          end
        end
      end.
Proof.
  unfold VolumeBind_Run, after_RawOutput; cbn [Args].
  rewrite B_bind_emit. f_equal.
  - rewrite B_bind_try. destruct (cmd_AppName _) as [e|appName]; [done|].
    rewrite B_bind_try. destruct (form_EncodeToValues_bind _) as [e|val];
      [done|].
    rewrite B_bind_try. destruct (cmd_GetURLVersion _ _) as [e|u]; [done|].
    rewrite B_NewRequest_try. destruct (http_NewRequest_err _ _); [done|].
    unfold Header_Set; cbn [Method URL Body Header].
    by rewrite insert_empty, B_Do_stream.
  - rewrite B_bind_try. destruct (cmd_AppName _) as [e|appName]; [done|].
    rewrite B_bind_try. destruct (form_EncodeToValues_bind _) as [e|val];
      [done|].
    rewrite B_bind_try. destruct (cmd_GetURLVersion _ _) as [e|u]; [done|].
    rewrite B_NewRequest_try. destruct (http_NewRequest_err _ _); [done|].
    unfold Header_Set; cbn [Method URL Body Header].
    by rewrite insert_empty, B_Do_stream.
Qed.

Lemma VolumeUnbind_Run_cases (c : VolumeUnbindCmd)
  (volumeName mountPoint : string) (rest : list string) :
  VolumeUnbind_Run c (mkContext (volumeName :: mountPoint :: rest)) =
    after_RawOutput
      match cmd_AppName (unbind_mixin c) with
      | inl e => ([], Failed e)
      | inr appName =>
        match form_EncodeToValues_unbind
                (mkUnbindForm appName mountPoint (unbind_noRestart c)) with
        | inl e => ([], Failed e)
        | inr val =>
          match cmd_GetURLVersion "1.4"
                  ("/volumes/" +:+ volumeName +:+ "/bind?" +:+
                   url_Values_Encode val) with
          | inl e => ([], Failed e)
          | inr u =>
            match http_NewRequest_err "DELETE" u with
            | Some e => ([], Failed e)
            | None =>
                stream_and_confirm (mkRequest "DELETE" u None ∅)
                                   ("Volume successfully unbound." +:+ nl)
            end
          end
        end
      end.
Proof.
  unfold VolumeUnbind_Run, after_RawOutput; cbn [Args].
  rewrite B_bind_emit. f_equal.
  - rewrite B_bind_try. destruct (cmd_AppName _) as [e|appName]; [done|].
    rewrite B_bind_try. destruct (form_EncodeToValues_unbind _) as [e|val];
      [done|].
    rewrite B_bind_try. destruct (cmd_GetURLVersion _ _) as [e|u]; [done|].
    rewrite B_NewRequest_try. destruct (http_NewRequest_err _ _); [done|].
    by rewrite B_Do_stream.
  - rewrite B_bind_try. destruct (cmd_AppName _) as [e|appName]; [done|].
    rewrite B_bind_try. destruct (form_EncodeToValues_unbind _) as [e|val];
      [done|].
    rewrite B_bind_try. destruct (cmd_GetURLVersion _ _) as [e|u]; [done|].
    rewrite B_NewRequest_try. destruct (http_NewRequest_err _ _); [done|].
    by rewrite B_Do_stream.
Qed.

End BindRuns.

(** How a run of bind or unbind can end.  It always starts by switching
    to raw output.  It returns nil only after one request that the transport
    answered and whose response was streamed without error, and then prints
    [msg] last.  Otherwise it prints nothing of its own: the error comes
    from before the request, from the transport, or from the streaming. *)
Definition streams_then_confirms {OptValue : Type} {env : Env OptValue}
  {benv : BindEnv} (msg : string) (m : B unit) : Prop :=
  match m with
  | (tr, Done _) =>
      ∃ request rsp,
        tr = [BvRawOutput; BvDo request; BvStreamJSONResponse rsp;
              BvFprint msg] ∧
        client_Do request = inr rsp ∧
        cmd_StreamJSONResponse_err rsp = None
  | (tr, Failed e) =>
      tr = [BvRawOutput] ∨
      (∃ request, tr = [BvRawOutput; BvDo request] ∧
                  client_Do request = inl e) ∨
      (∃ request rsp,
         tr = [BvRawOutput; BvDo request; BvStreamJSONResponse rsp] ∧
         client_Do request = inr rsp ∧
         cmd_StreamJSONResponse_err rsp = Some e)
  | (tr, Panic) => tr = [BvRawOutput]
  end.

Lemma stream_and_confirm_ends {OptValue : Type} {env : Env OptValue}
  {benv : BindEnv} (request : Request) (msg : string) :
  streams_then_confirms msg
    (after_RawOutput (stream_and_confirm request msg)).
Proof.
  unfold stream_and_confirm, after_RawOutput, streams_then_confirms.
  destruct (client_Do request) as [e|rsp] eqn:Hdo; cbn [fst snd].
  - right; left. eauto.
  - destruct (cmd_StreamJSONResponse_err rsp) as [e|] eqn:Hs; cbn [fst snd].
    + right; right. eauto.
    + eauto.
Qed.

(** X18: bind and unbind print their confirmation only as the last step
    of a run that returns nil, after the response of their one request has
    been streamed without error; a run that fails or panics has printed
    nothing of its own, and has sent no request unless the failure is the
    transport's or the streaming's. *)
Theorem bind_unbind_stream_then_confirm {OptValue : Type}
  {env : Env OptValue} {benv : BindEnv} (ctx : Context) :
  (∀ c : VolumeBindCmd,
     streams_then_confirms ("Volume successfully bound." +:+ nl)
                           (VolumeBind_Run c ctx)) ∧
  (∀ c : VolumeUnbindCmd,
     streams_then_confirms ("Volume successfully unbound." +:+ nl)
                           (VolumeUnbind_Run c ctx)).
Proof.
  destruct ctx as [[|volumeName [|mountPoint rest]]]; split; intros c.
  - done.
  - done.
  - unfold VolumeBind_Run; cbn [Args]. rewrite B_bind_emit, B_bind_try.
    destruct (cmd_AppName _); cbn; eauto.
  - unfold VolumeUnbind_Run; cbn [Args]. rewrite B_bind_emit, B_bind_try.
    destruct (cmd_AppName _); cbn; eauto.
  - rewrite VolumeBind_Run_cases.
    destruct (cmd_AppName _) as [e|appName]; [by left|].
    destruct (form_EncodeToValues_bind _) as [e|val]; [by left|].
    destruct (cmd_GetURLVersion _ _) as [e|u]; [by left|].
    destruct (http_NewRequest_err _ _); [by left|].
    apply stream_and_confirm_ends.
  - rewrite VolumeUnbind_Run_cases.
    destruct (cmd_AppName _) as [e|appName]; [by left|].
    destruct (form_EncodeToValues_unbind _) as [e|val]; [by left|].
    destruct (cmd_GetURLVersion _ _) as [e|u]; [by left|].
    destruct (http_NewRequest_err _ _); [by left|].
    apply stream_and_confirm_ends.
Qed.

Lemma stream_and_confirm_request {OptValue : Type} {env : Env OptValue}
  {benv : BindEnv} (request request' : Request) (msg : string) :
  BvDo request' ∈ (after_RawOutput (stream_and_confirm request msg)).1 →
  request' = request.
Proof.
  unfold stream_and_confirm, after_RawOutput.
  destruct (client_Do request) as [e|rsp];
    [|destruct (cmd_StreamJSONResponse_err rsp)];
    cbn [fst]; rewrite !elem_of_cons, elem_of_nil; intros Hin;
    repeat (destruct Hin as [Heq|Hin];
            [try discriminate Heq; by injection Heq|]); done.
Qed.

(** X19: bind sends its parameters in the body and unbind in the URL.
    Whatever bind sends is a POST, with the form content type, to
    ["/volumes/<name>/bind"], whose body encodes the application name, the
    mount point and the two flags; whatever unbind sends is a DELETE without
    body or header to ["/volumes/<name>/bind?"] followed by the encoding of
    the application name, the mount point and the no-restart flag.  The
    application is the one that [AppName] returns. *)
Theorem bind_unbind_request {OptValue : Type} {env : Env OptValue}
  {benv : BindEnv} (volumeName mountPoint : string) (rest : list string)
  (request : Request) :
  (∀ c : VolumeBindCmd,
     BvDo request
       ∈ (VolumeBind_Run c (mkContext (volumeName :: mountPoint :: rest))).1 →
     ∃ appName val u,
       cmd_AppName (bind_mixin c) = inr appName ∧
       form_EncodeToValues_bind
         (mkBindForm appName mountPoint (bind_readOnly c) (bind_noRestart c))
         = inr val ∧
       cmd_GetURLVersion "1.4" ("/volumes/" +:+ volumeName +:+ "/bind")
         = inr u ∧
       request = mkRequest "POST" u (Some (url_Values_Encode val)) formHeader) ∧
  (∀ c : VolumeUnbindCmd,
     BvDo request
       ∈ (VolumeUnbind_Run c
            (mkContext (volumeName :: mountPoint :: rest))).1 →
     ∃ appName val u,
       cmd_AppName (unbind_mixin c) = inr appName ∧
       form_EncodeToValues_unbind
         (mkUnbindForm appName mountPoint (unbind_noRestart c)) = inr val ∧
       cmd_GetURLVersion "1.4"
         ("/volumes/" +:+ volumeName +:+ "/bind?" +:+ url_Values_Encode val)
         = inr u ∧
       request = mkRequest "DELETE" u None ∅).
Proof.
  assert (∀ e : error,
            BvDo request ∉ (after_RawOutput (A:=unit) ([], Failed e)).1)
    as Hnone.
  { intros e. cbn. rewrite list_elem_of_singleton. discriminate. }
  split; intros c.
  - rewrite VolumeBind_Run_cases.
    destruct (cmd_AppName _) as [e|appName]; [by intros ?%Hnone|].
    destruct (form_EncodeToValues_bind _) as [e|val] eqn:Hval;
      [by intros ?%Hnone|].
    destruct (cmd_GetURLVersion _ _) as [e|u]; [by intros ?%Hnone|].
    destruct (http_NewRequest_err _ _); [by intros ?%Hnone|].
    intros ->%stream_and_confirm_request. by exists appName, val, u.
  - rewrite VolumeUnbind_Run_cases.
    destruct (cmd_AppName _) as [e|appName]; [by intros ?%Hnone|].
    destruct (form_EncodeToValues_unbind _) as [e|val] eqn:Hval;
      [by intros ?%Hnone|].
    destruct (cmd_GetURLVersion _ _) as [e|u] eqn:Hu; [by intros ?%Hnone|].
    destruct (http_NewRequest_err _ _); [by intros ?%Hnone|].
    intros ->%stream_and_confirm_request. by exists appName, val, u.
Qed.

Lemma stream_and_confirm_not_Panic {OptValue : Type} {env : Env OptValue}
  {benv : BindEnv} (request : Request) (msg : string) :
  (stream_and_confirm request msg).2 ≠ Panic.
Proof. unfold stream_and_confirm. split_cases; done. Qed.

(** X20: bind and unbind switch raw output on first, then read the
    volume name, then ask for the application, and read the mount point
    only after that.  So every run starts with the switch to raw output;
    a run panics only with fewer arguments than [MinArgs]: always with
    none, and with one exactly when [AppName] succeeds; a run that panics
    has done nothing but the switch; and with at least one argument and a
    failing [AppName], the run returns the error of [AppName], again after
    nothing but the switch. *)
Theorem bind_unbind_panics {OptValue : Type} {env : Env OptValue}
  {benv : BindEnv} (ctx : Context) :
  (∀ c : VolumeBindCmd,
     ((VolumeBind_Run c ctx).2 = Panic
      ↔ length (Args ctx) < MinArgs VolumeBind_Info ∧
        (Args ctx = [] ∨
         ∃ appName, cmd_AppName (bind_mixin c) = inr appName)) ∧
     ((VolumeBind_Run c ctx).2 = Panic →
      VolumeBind_Run c ctx = ([BvRawOutput], Panic)) ∧
     (∀ e, Args ctx ≠ [] → cmd_AppName (bind_mixin c) = inl e →
           VolumeBind_Run c ctx = ([BvRawOutput], Failed e)) ∧
     (∃ tr, (VolumeBind_Run c ctx).1 = BvRawOutput :: tr)) ∧
  (∀ c : VolumeUnbindCmd,
     ((VolumeUnbind_Run c ctx).2 = Panic
      ↔ length (Args ctx) < MinArgs VolumeUnbind_Info ∧
        (Args ctx = [] ∨
         ∃ appName, cmd_AppName (unbind_mixin c) = inr appName)) ∧
     ((VolumeUnbind_Run c ctx).2 = Panic →
      VolumeUnbind_Run c ctx = ([BvRawOutput], Panic)) ∧
     (∀ e, Args ctx ≠ [] → cmd_AppName (unbind_mixin c) = inl e →
           VolumeUnbind_Run c ctx = ([BvRawOutput], Failed e)) ∧
     (∃ tr, (VolumeUnbind_Run c ctx).1 = BvRawOutput :: tr)).
Proof.
  destruct ctx as [[|volumeName [|mountPoint rest]]];
    cbn [Args length MinArgs VolumeBind_Info VolumeUnbind_Info].
  - split; intros c; (split; [|split; [|split]]).
    + split; [intros _; split; [lia|by left]|done].
    + done.
    + by intros e Hne.
    + by exists [].
    + split; [intros _; split; [lia|by left]|done].
    + done.
    + by intros e Hne.
    + by exists [].
  - split; intros c.
    + unfold VolumeBind_Run; cbn [Args]. rewrite B_bind_emit, B_bind_try.
      destruct (cmd_AppName _) as [e|appName]; cbn [fst snd].
      * split; [|split; [|split]].
        -- split; [done|]. by intros [_ [?|[? ?]]].
        -- done.
        -- by intros e' _ [= ->].
        -- by exists [].
      * split; [|split; [|split]].
        -- split; [|done]. intros _. split; [lia|]. right. eauto.
        -- done.
        -- by intros e' _.
        -- by exists [].
    + unfold VolumeUnbind_Run; cbn [Args]. rewrite B_bind_emit, B_bind_try.
      destruct (cmd_AppName _) as [e|appName]; cbn [fst snd].
      * split; [|split; [|split]].
        -- split; [done|]. by intros [_ [?|[? ?]]].
        -- done.
        -- by intros e' _ [= ->].
        -- by exists [].
      * split; [|split; [|split]].
        -- split; [|done]. intros _. split; [lia|]. right. eauto.
        -- done.
        -- by intros e' _.
        -- by exists [].
  - split; intros c.
    + rewrite VolumeBind_Run_cases.
      assert ((after_RawOutput
                 match cmd_AppName (bind_mixin c) with
                 | inl e => ([], Failed e)
                 | inr appName =>
                   match form_EncodeToValues_bind
                           (mkBindForm appName mountPoint (bind_readOnly c)
                                       (bind_noRestart c)) with
                   | inl e => ([], Failed e)
                   | inr val =>
                     match cmd_GetURLVersion "1.4"
                             ("/volumes/" +:+ volumeName +:+ "/bind") with
                     | inl e => ([], Failed e)
                     | inr u =>
                       match http_NewRequest_err "POST" u with
                       | Some e => ([], Failed e)
                       | None =>
                           stream_and_confirm
                             (mkRequest "POST" u (Some (url_Values_Encode val))
                                        formHeader)
                             ("Volume successfully bound." +:+ nl)
                       end
                     end
                   end
                 end).2 ≠ Panic) as Hnp.
      { unfold after_RawOutput; cbn [snd].
        split_cases; try done. apply stream_and_confirm_not_Panic. }
      split; [|split; [|split]].
      * split; [done|lia].
      * done.
      * by intros e _ ->.
      * unfold after_RawOutput; cbn [fst]. eauto.
    + rewrite VolumeUnbind_Run_cases.
      assert ((after_RawOutput
                 match cmd_AppName (unbind_mixin c) with
                 | inl e => ([], Failed e)
                 | inr appName =>
                   match form_EncodeToValues_unbind
                           (mkUnbindForm appName mountPoint
                                         (unbind_noRestart c)) with
                   | inl e => ([], Failed e)
                   | inr val =>
                     match cmd_GetURLVersion "1.4"
                             ("/volumes/" +:+ volumeName +:+ "/bind?" +:+
                              url_Values_Encode val) with
                     | inl e => ([], Failed e)
                     | inr u =>
                       match http_NewRequest_err "DELETE" u with
                       | Some e => ([], Failed e)
                       | None =>
                           stream_and_confirm
                             (mkRequest "DELETE" u None ∅)
                             ("Volume successfully unbound." +:+ nl)
                       end
                     end
                   end
                 end).2 ≠ Panic) as Hnp.
      { unfold after_RawOutput; cbn [snd].
        split_cases; try done. apply stream_and_confirm_not_Panic. }
      split; [|split; [|split]].
      * split; [done|lia].
      * done.
      * by intros e _ ->.
      * unfold after_RawOutput; cbn [fst]. eauto.
Qed.

(** ** The client-side filter as a safety net *)

Lemma elem_of_clientSideFilter {OptValue : Type} (c : VolumeList)
  (volumes : list (Volume OptValue)) (v : Volume OptValue) :
  v ∈ clientSideFilter c volumes
  ↔ v ∈ volumes ∧ criteria_hold (list_filter c) v.
Proof.
  rewrite clientSideFilter_filter, <- clientSideFilter_insert_true.
  rewrite !list_elem_of_In. apply List.filter_In.
Qed.

(** A volume that the server sent and that meets the criteria. *)
Definition sent_and_matching {OptValue : Type} (c : VolumeList)
  (decoded : list (Volume OptValue)) (v : Volume OptValue) : Prop :=
  v ∈ decoded ∧ criteria_hold (list_filter c) v.

(** The server answers the list request of [c] with 204. *)
Definition list_answer_no_content {OptValue : Type} {env : Env OptValue}
  (c : VolumeList) : Prop :=
  ∃ qs request rsp,
    queryString (list_filter c) = inr qs ∧
    served "GET" ("/volumes?" +:+ url_Values_Encode qs) request rsp ∧
    StatusCode rsp = 204.

(** The server answers the list request of [c] with another status and a
    body that is read and decodes to the volumes [decoded]. *)
Definition list_answer_decodes {OptValue : Type} {env : Env OptValue}
  (c : VolumeList) (decoded : list (Volume OptValue)) : Prop :=
  ∃ qs request rsp data,
    queryString (list_filter c) = inr qs ∧
    served "GET" ("/volumes?" +:+ url_Values_Encode qs) request rsp ∧
    StatusCode rsp ≠ 204 ∧
    RspBody rsp = inr data ∧
    json_Unmarshal_volumes data = inr decoded.

(** The three ways a run of the list handler can go: it shows nothing, it
    prints the fixed message on a 204, or it renders what the answer
    decodes to, filtered. *)
Lemma VolumeList_Run_answer {OptValue : Type} {tables : TableCLI}
  {env : Env OptValue} (c : VolumeList) (ctx : Context) :
  (∀ ev, ev ∈ (VolumeList_Run c ctx).1 →
         is_print ev = false ∧ ∀ p, ev ≠ EvFormatterJSON p) ∨
  (list_answer_no_content c ∧
   ∃ request,
     VolumeList_Run c ctx =
       ([EvDo request; EvFprint ("No volumes available." +:+ nl)], Done tt)) ∨
  (∃ request data decoded,
     list_answer_decodes c decoded ∧
     VolumeList_Run c ctx =
       ([EvDo request; EvReadAll; EvUnmarshal data] ++
          (VolumeList_render c (clientSideFilter c decoded)).1,
        (VolumeList_render c (clientSideFilter c decoded)).2)).
Proof.
  destruct (VolumeList_Run_cases c ctx) as (qs & Hqs & ->).
  assert (∀ l : list (event OptValue),
            Forall (λ ev, is_print ev = false ∧ ∀ p, ev ≠ EvFormatterJSON p) l →
            ∀ ev, ev ∈ l → is_print ev = false ∧ ∀ p, ev ≠ EvFormatterJSON p)
    as Hquiet.
  { intros l Hl ev Hev. by apply (proj1 (Forall_forall _ _) Hl). }
  destruct (cmd_GetURLVersion _ _) as [e|u] eqn:Hu.
  { left. apply Hquiet. constructor. }
  destruct (http_NewRequest_err "GET" u) eqn:Hreq.
  { left. apply Hquiet. constructor. }
  cbn zeta.
  destruct (client_Do _) as [e|rsp] eqn:Hdo.
  { left. apply Hquiet. by repeat constructor. }
  assert (served "GET" ("/volumes?" +:+ url_Values_Encode qs)
                 (mkRequest "GET" u None ∅) rsp) as Hserved.
  { by exists u. }
  destruct (Nat.eqb _ _) eqn:Hstatus.
  { right; left. apply Nat.eqb_eq in Hstatus. split.
    - by exists qs, (mkRequest "GET" u None ∅), rsp.
    - by eexists. }
  apply Nat.eqb_neq in Hstatus.
  destruct (RspBody rsp) as [e|data] eqn:Hbody.
  { left. apply Hquiet. by repeat constructor. }
  destruct (json_Unmarshal_volumes data) as [e|decoded] eqn:Hdecode.
  { left. apply Hquiet. by repeat constructor. }
  right; right. exists (mkRequest "GET" u None ∅), data, decoded.
  split; [|done].
  by exists qs, (mkRequest "GET" u None ∅), rsp, data.
Qed.

(** The two kinds of answer at fixed servers. *)
Example list_answers :
  list_answer_no_content (env:=noContentEnv) (byPool "p1") ∧
  list_answer_decodes (env:=twoVolumesEnv) jsonByPool [data1; data2].
Proof.
  split.
  - exists (Values_Set "pool" "p1" ∅), listRequest,
      (mkResponse 204 (inr "")).
    split; [reflexivity|]. split; [|reflexivity].
    exists "http://tsuru.example/1.4/volumes?pool=p1".
    split; [vm_compute; reflexivity|]. by repeat split.
  - exists (Values_Set "pool" "p1" ∅), listRequest,
      (mkResponse 200 (inr "[two volumes]")), "[two volumes]".
    split; [reflexivity|]. split; [|split; [simpl; lia|by split]].
    exists "http://tsuru.example/1.4/volumes?pool=p1".
    split; [vm_compute; reflexivity|]. by repeat split.
Qed.

(** X21: whatever the outside world answers to a list request, the
    handler shows no volume that fails the criteria, in any output mode.
    A printed line is either the fixed message, on an answer with status
    204, or the name of a volume that the answer decodes to and that meets
    the criteria; the JSON formatter is given only such volumes; each table
    row is the row of one; and with [simplified] the name of every such
    volume is printed.  On a 204 the run prints the fixed message and
    nothing else. *)
Theorem VolumeList_Run_shows_only_matching {OptValue : Type}
  {tables : TableCLI} {env : Env OptValue} (c : VolumeList) (ctx : Context) :
  (∀ s, EvFprint s ∈ (VolumeList_Run c ctx).1 →
        (s = "No volumes available." +:+ nl ∧ list_answer_no_content c) ∨
        (∃ decoded v, list_answer_decodes c decoded ∧
                      sent_and_matching c decoded v ∧
                      s = Volume_Name v +:+ nl)) ∧
  (∀ shown, EvFormatterJSON (PVolumes shown) ∈ (VolumeList_Run c ctx).1 →
            ∃ decoded, list_answer_decodes c decoded ∧
                       Forall (sent_and_matching c decoded) shown) ∧
  (∀ t r, EvFprintTable t ∈ (VolumeList_Run c ctx).1 → r ∈ rows t →
          ∃ decoded v, list_answer_decodes c decoded ∧
                       sent_and_matching c decoded v ∧
                       r = volumeRow v) ∧
  (list_simplified c = true →
   ∀ decoded v, list_answer_decodes c decoded →
                sent_and_matching c decoded v →
                EvFprint (Volume_Name v +:+ nl) ∈ (VolumeList_Run c ctx).1) ∧
  (list_answer_no_content c →
   ∃ request,
     VolumeList_Run c ctx =
       ([EvDo request; EvFprint ("No volumes available." +:+ nl)], Done tt)).
Proof.
  assert (∀ (request : Request) (data : string) (ev : event OptValue),
            ev ∈ [EvDo request; EvReadAll; EvUnmarshal data] →
            is_print ev = false ∧ ∀ p, ev ≠ EvFormatterJSON p) as Hhead.
  { intros request data ev. rewrite !elem_of_cons, elem_of_nil.
    intros [->|[->|[->|[]]]]; by split. }
  split; [|split; [|split; [|split]]].
  - intros s Hin.
    destruct (VolumeList_Run_answer c ctx)
      as [Hquiet|[[Hno [request Hrun]]|(request & data & decoded & Hans & Hrun)]].
    + by apply Hquiet in Hin as [? _].
    + left. rewrite Hrun in Hin. cbn [fst] in Hin.
      rewrite !elem_of_cons, elem_of_nil in Hin.
      destruct Hin as [Hin|[Hin|[]]]; [discriminate Hin|].
      by injection Hin as ->.
    + right. rewrite Hrun, VolumeList_render_run in Hin. cbn [fst] in Hin.
      apply elem_of_app in Hin as [Hin|Hin].
      { by apply Hhead in Hin as [? _]. }
      exists decoded.
      destruct (list_simplified c); [|destruct (list_json c)];
        cbn [fst] in Hin.
      * apply list_elem_of_In, in_map_iff in Hin as (v & [= <-] & Hv).
        exists v. split; [done|]. split; [|done].
        by apply elem_of_clientSideFilter, list_elem_of_In.
      * apply list_elem_of_singleton in Hin. discriminate Hin.
      * apply list_elem_of_singleton in Hin. discriminate Hin.
  - intros shown Hin.
    destruct (VolumeList_Run_answer c ctx)
      as [Hquiet|[[Hno [request Hrun]]|(request & data & decoded & Hans & Hrun)]].
    + apply Hquiet in Hin as [_ Hne]. by destruct (Hne (PVolumes shown)).
    + rewrite Hrun in Hin. cbn [fst] in Hin.
      rewrite !elem_of_cons, elem_of_nil in Hin.
      destruct Hin as [Hin|[Hin|[]]]; discriminate Hin.
    + rewrite Hrun, VolumeList_render_run in Hin. cbn [fst] in Hin.
      apply elem_of_app in Hin as [Hin|Hin].
      { apply Hhead in Hin as [_ Hne]. by destruct (Hne (PVolumes shown)). }
      exists decoded. split; [done|].
      destruct (list_simplified c); [|destruct (list_json c)];
        cbn [fst] in Hin.
      * apply list_elem_of_In, in_map_iff in Hin as (v & Heq & _).
        discriminate Heq.
      * apply list_elem_of_singleton in Hin. injection Hin as ->.
        apply Forall_forall. intros v Hv.
        by apply elem_of_clientSideFilter.
      * apply list_elem_of_singleton in Hin. discriminate Hin.
  - intros t r Hin Hr.
    destruct (VolumeList_Run_answer c ctx)
      as [Hquiet|[[Hno [request Hrun]]|(request & data & decoded & Hans & Hrun)]].
    + by apply Hquiet in Hin as [? _].
    + rewrite Hrun in Hin. cbn [fst] in Hin.
      rewrite !elem_of_cons, elem_of_nil in Hin.
      destruct Hin as [Hin|[Hin|[]]]; discriminate Hin.
    + rewrite Hrun, VolumeList_render_run in Hin. cbn [fst] in Hin.
      apply elem_of_app in Hin as [Hin|Hin].
      { by apply Hhead in Hin as [? _]. }
      exists decoded.
      destruct (list_simplified c); [|destruct (list_json c)];
        cbn [fst] in Hin.
      * apply list_elem_of_In, in_map_iff in Hin as (v & Heq & _).
        discriminate Heq.
      * apply list_elem_of_singleton in Hin. discriminate Hin.
      * apply list_elem_of_singleton in Hin. injection Hin as ->.
        cbn [rows] in Hr. rewrite rows_Sort_Permutation in Hr.
        apply list_elem_of_In, in_map_iff in Hr as (v & <- & Hv).
        exists v. split; [done|]. split; [|done].
        by apply elem_of_clientSideFilter, list_elem_of_In.
  - intros Hsimplified decoded v
      (qs & request & rsp & data & Hqs & Hserved & Hstatus & Hbody & Hdecode)
      Hv.
    rewrite (VolumeList_Run_on_decoded c ctx qs request rsp data decoded)
      by done.
    rewrite VolumeList_render_run, Hsimplified. cbn [fst].
    apply elem_of_app. right.
    apply list_elem_of_In, in_map_iff. exists v. split; [done|].
    by apply list_elem_of_In, elem_of_clientSideFilter.
  - intros (qs & request & rsp & Hqs & Hserved & Hstatus).
    exists request.
    rewrite (VolumeList_Run_served c ctx qs request rsp Hqs Hserved).
    rewrite M_bind_Done. unfold http_StatusNoContent. rewrite Hstatus.
    reflexivity.
Qed.
